(** * AI-News: the aggregation, bookmark, paging and theme logic of
    [src/App.jsx] and [src/hooks/useTheme.js], embedded in Rocq.

    The React component keeps its state in [useState] cells; every handler
    is modelled as a function from the values it reads to the value it
    stores.  Arrays are lists, the JS [Map] used for deduplication is an
    insertion-ordered association list, strings are [string]. *)

From Stdlib Require Import ZArith QArith Qround Lia.
From stdpp Require Import base list sets strings sorting gmap.

(** ** Data model *)

(** The time value of [new Date(x)]: an integral number of milliseconds, or
    NaN for an Invalid Date (an absent or unparsable [publishedAt]). *)
Inductive timeValue :=
  | Millis (ms : Z)
  | InvalidDate.

#[global] Instance timeValue_eq_dec : EqDecision timeValue.
Proof. solve_decision. Defined.

(** The normalized article object built in [fetchAllNews].  [publishedAt] is
    kept as the time value its date string denotes, the only way the
    component reads it.  [bookmarkedAt] is the property that [addBookmark]
    adds; it is absent ([None]) on freshly normalized articles. *)
Record Article := mkArticle {
  id : string;
  title : string;
  url : string;
  imageUrl : option string;
  source : string;
  publishedAt : timeValue;
  apiSource : string;
  bookmarkedAt : option string
}.

#[global] Instance Article_eq_dec : EqDecision Article.
Proof. solve_decision. Defined.

(** ** The JS [Map], as far as [fetchAllNews] uses it

    A [Map] iterates in insertion order; [set] on a key already present
    replaces the value and keeps the key's position. *)
Module JSMap.
Section jsmap.
Context {K V : Type} `{EqDecision K}.

Fixpoint set (m : list (K * V)) (k : K) (v : V) : list (K * V) :=
  match m with
  | [] => [(k, v)]
  | (k', v') :: m' =>
      if decide (k' = k) then (k', v) :: m' else (k', v') :: set m' k v
  end.

Fixpoint get (m : list (K * V)) (k : K) : option V :=
  match m with
  | [] => None
  | (k', v') :: m' => if decide (k' = k) then Some v' else get m' k
  end.

(** [new Map(entries)]: the entries are set one after the other. *)
Definition of_entries (es : list (K * V)) : list (K * V) :=
  foldl (λ m e, set m e.1 e.2) [] es.

(** [m.values()], collected by [Array.from]. *)
Definition values (m : list (K * V)) : list V := m.*2.
End jsmap.
End JSMap.

(** ** Deduplication in [fetchAllNews] *)

(** [combinedArticles.map(item => [item.id, item])] *)
Definition entriesOf (combinedArticles : list Article) : list (string * Article) :=
  (λ item, (id item, item)) <$> combinedArticles.

(** [Array.from(new Map(...).values())] *)
Definition uniqueArticles (combinedArticles : list Article) : list Article :=
  JSMap.values (JSMap.of_entries (entriesOf combinedArticles)).

(** ** JS numbers, as far as the date comparator needs them

    Time values are integral, so subtraction is exact; the only special
    value that occurs is NaN. *)
Inductive number :=
  | Num (z : Z)
  | NaN.

#[global] Instance number_eq_dec : EqDecision number.
Proof. solve_decision. Defined.

(** [date.valueOf()], applied by [-] to its operands. *)
Definition valueOf (d : timeValue) : number :=
  match d with
  | Millis ms => Num ms
  | InvalidDate => NaN
  end.

(** [x - y] *)
Definition sub (x y : number) : number :=
  match x, y with
  | Num a, Num b => Num (a - b)
  | _, _ => NaN
  end.

(** [x >= y]: false as soon as one side is NaN. *)
Definition ge (x y : number) : bool :=
  match x, y with
  | Num a, Num b => bool_decide (b ≤ a)%Z
  | _, _ => false
  end.

(** ** [Array.prototype.sort]

    ECMAScript asks for a stable sort that compares through [SortCompare],
    which reads a NaN returned by the comparator as +0.  The model is stable
    insertion.  When the comparator is a consistent ordering the standard
    fixes the result (sorted and stable); when it is not, the order is left
    to the engine (V8 returns the insertion order on short arrays). *)
Section sort.
Context {A : Type} (comparefn : A → A → number).

Definition SortCompare (x y : A) : Z :=
  match comparefn x y with
  | Num v => v
  | NaN => 0
  end.

(** [x] may stay in front of [y]. *)
Definition inOrder (x y : A) : Prop := (SortCompare x y ≤ 0)%Z.

#[global] Instance inOrder_dec x y : Decision (inOrder x y).
Proof. unfold inOrder. apply _. Defined.

Fixpoint insert (x : A) (l : list A) : list A :=
  match l with
  | [] => [x]
  | y :: l' => if decide (inOrder x y) then x :: y :: l' else y :: insert x l'
  end.

Definition sort (l : list A) : list A := foldr insert [] l.
End sort.

(** [(a, b) => new Date(b.publishedAt) - new Date(a.publishedAt)] *)
Definition byDateDesc (a b : Article) : number :=
  sub (valueOf (publishedAt b)) (valueOf (publishedAt a)).

(** ** The three API payloads

    [res.json()] may resolve to any JSON value.  [fetchAllNews] reads the
    value through property accesses, a truth test and [map], with no
    [try]; the types below keep apart the shapes on which these behave
    differently.  A TypeError anywhere rejects the promise of
    [fetchAllNews] before [setArticles] is reached. *)

(** An entry of [Promise.allSettled]. *)
Inductive settled (A : Type) :=
  | fulfilled (value : A)
  | rejected.
Arguments fulfilled {A} value.
Arguments rejected {A}.

(** A value whose properties are read: on [null] (or [undefined]) the
    access throws; anything else is an object with the properties it has. *)
Inductive nullable (A : Type) :=
  | null
  | object (o : A).
Arguments null {A}.
Arguments object {A} o.

(** A property that is tested for truth and then mapped over: [falsy]
    (missing, [null], [false], 0 or the empty string) fails the test,
    [notAnArray] passes it but has no [map], so that calling [map] throws. *)
Inductive listField (A : Type) :=
  | falsy
  | notAnArray
  | array (items : list (nullable A)).
Arguments falsy {A}.
Arguments notAnArray {A}.
Arguments array {A} items.

Module NewsAPI.
Record sourceObject := mkSource { name : string }.
Record article := mkArticle {
  url : string;
  title : string;
  urlToImage : option string;
  source : nullable sourceObject;
  publishedAt : timeValue
}.
Record payload := mkPayload { articles : listField article }.
End NewsAPI.

Module GNews.
Record sourceObject := mkSource { name : string }.
Record article := mkArticle {
  url : string;
  title : string;
  image : option string;
  source : nullable sourceObject;
  publishedAt : timeValue
}.
Record payload := mkPayload { articles : listField article }.
End GNews.

Module Guardian.
Record fields := mkFields { thumbnail : option string }.
Record article := mkArticle {
  id : string;
  webTitle : string;
  webUrl : string;
  article_fields : option fields;
  webPublicationDate : timeValue
}.
Record response := mkResponse { results : listField article }.
Record payload := mkPayload { payload_response : option response }.
End Guardian.

(** The callbacks of [map]; [None] is a TypeError: [article.url] on a
    [null] element, or [article.source.name] without a [source]. *)
Definition normalizeNewsAPI (article : nullable NewsAPI.article) : option Article :=
  match article with
  | null => None
  | object article =>
      match NewsAPI.source article with
      | null => None
      | object article_source =>
          Some {| id := NewsAPI.url article;
                  title := NewsAPI.title article;
                  url := NewsAPI.url article;
                  imageUrl := NewsAPI.urlToImage article;
                  source := NewsAPI.name article_source;
                  publishedAt := NewsAPI.publishedAt article;
                  apiSource := "NewsAPI";
                  bookmarkedAt := None |}
      end
  end.

Definition normalizeGNews (article : nullable GNews.article) : option Article :=
  match article with
  | null => None
  | object article =>
      match GNews.source article with
      | null => None
      | object article_source =>
          Some {| id := GNews.url article;
                  title := GNews.title article;
                  url := GNews.url article;
                  imageUrl := GNews.image article;
                  source := GNews.name article_source;
                  publishedAt := GNews.publishedAt article;
                  apiSource := "GNews";
                  bookmarkedAt := None |}
      end
  end.

(** [article.fields?.thumbnail] tolerates a missing [fields]. *)
Definition normalizeGuardian (article : nullable Guardian.article) : option Article :=
  match article with
  | null => None
  | object article =>
      Some {| id := Guardian.id article;
              title := Guardian.webTitle article;
              url := Guardian.webUrl article;
              imageUrl := Guardian.article_fields article ≫= Guardian.thumbnail;
              source := "The Guardian";
              publishedAt := Guardian.webPublicationDate article;
              apiSource := "The Guardian";
              bookmarkedAt := None |}
  end.

(** What each [if (results[i].status === 'fulfilled' && ...)] block pushes
    onto [combinedArticles]; the [else] branch only logs.  [None] is a
    TypeError: [results[i].value] is dereferenced without a guard, and
    [map] is called on whatever passed the truth test. *)
Definition fromNewsAPI (r : settled (nullable NewsAPI.payload))
  : option (list Article) :=
  match r with
  | fulfilled null => None
  | fulfilled (object value) =>
      match NewsAPI.articles value with
      | falsy => Some []
      | notAnArray => None
      | array articles => mapM normalizeNewsAPI articles
      end
  | rejected => Some []
  end.

Definition fromGNews (r : settled (nullable GNews.payload))
  : option (list Article) :=
  match r with
  | fulfilled null => None
  | fulfilled (object value) =>
      match GNews.articles value with
      | falsy => Some []
      | notAnArray => None
      | array articles => mapM normalizeGNews articles
      end
  | rejected => Some []
  end.

(** [results[2].value.response?.results]: only [response] is guarded. *)
Definition fromGuardian (r : settled (nullable Guardian.payload))
  : option (list Article) :=
  match r with
  | fulfilled null => None
  | fulfilled (object value) =>
      match Guardian.payload_response value with
      | None => Some []
      | Some response =>
          match Guardian.results response with
          | falsy => Some []
          | notAnArray => None
          | array results => mapM normalizeGuardian results
          end
      end
  | rejected => Some []
  end.

(** The three blocks run one after the other; the first TypeError ends
    the function. *)
Definition combinedArticles
    (r0 : settled (nullable NewsAPI.payload))
    (r1 : settled (nullable GNews.payload))
    (r2 : settled (nullable Guardian.payload)) : option (list Article) :=
  fromNewsAPI r0 ≫= λ newsApi,
  fromGNews r1 ≫= λ gnews,
  fromGuardian r2 ≫= λ guardian,
  Some (newsApi ++ gnews ++ guardian).

(** The array handed to [setArticles]; [None] when a TypeError was thrown
    on the way, so that [setArticles] is never called. *)
Definition fetchAllNews
    (r0 : settled (nullable NewsAPI.payload))
    (r1 : settled (nullable GNews.payload))
    (r2 : settled (nullable Guardian.payload)) : option (list Article) :=
  combinedArticles r0 r1 r2 ≫= λ combined,
  Some (sort byDateDesc (uniqueArticles combined)).

(** ** Bookmarks *)

(** [{ ...article, bookmarkedAt: now }] *)
Definition withBookmarkedAt (article : Article) (now : string) : Article :=
  {| id := id article;
     title := title article;
     url := url article;
     imageUrl := imageUrl article;
     source := source article;
     publishedAt := publishedAt article;
     apiSource := apiSource article;
     bookmarkedAt := Some now |}.

(** The updater passed to [setBookmarks]; [now] is
    [new Date().toISOString()]. *)
Definition addBookmark (now : string) (article : Article)
    (prev : list Article) : list Article :=
  let exists_ := bool_decide (Exists (λ bookmark, id bookmark = id article) prev) in
  if negb exists_ then prev ++ [withBookmarkedAt article now] else prev.

Definition removeBookmark (articleId : string) (prev : list Article) : list Article :=
  filter (λ bookmark, id bookmark ≠ articleId) prev.

Definition isBookmarked (bookmarks : list Article) (articleId : string) : bool :=
  bool_decide (Exists (λ bookmark, id bookmark = articleId) bookmarks).

Definition clearAllBookmarks (prev : list Article) : list Article := [].

(** ** Theme *)

(** [prevTheme => (prevTheme === 'light' ? 'dark' : 'light')] *)
Definition toggleTheme (prevTheme : string) : string :=
  if decide (prevTheme = "light") then "dark" else "light".

(** [setDarkMode(!darkMode)] *)
Definition toggleDarkMode (darkMode : bool) : bool := negb darkMode.

(** ** Search filter *)

(** [toLowerCase] on byte strings: A-Z become a-z, every other character is
    kept.  The properties below use only that it is a function on strings. *)
Definition toLowerCaseChar (c : Ascii.ascii) : Ascii.ascii :=
  let n := Ascii.N_of_ascii c in
  if ((65 <=? n) && (n <=? 90))%N then Ascii.ascii_of_N (n + 32) else c.

Fixpoint toLowerCase (s : string) : string :=
  match s with
  | EmptyString => EmptyString
  | String c s' => String (toLowerCaseChar c) (toLowerCase s')
  end.

Fixpoint startsWith (s searchString : string) {struct searchString} : bool :=
  match searchString, s with
  | EmptyString, _ => true
  | String _ _, EmptyString => false
  | String c q, String d s' => if decide (c = d) then startsWith s' q else false
  end.

(** [s.includes(searchString)] *)
Fixpoint includes (s searchString : string) : bool :=
  startsWith s searchString ||
  match s with
  | EmptyString => false
  | String _ s' => includes s' searchString
  end.

Definition matchesQuery (searchQuery : string) (article : Article) : bool :=
  includes (toLowerCase (title article)) (toLowerCase searchQuery).

Definition filteredArticles (showBookmarks : bool)
    (bookmarks articles : list Article) (searchQuery : string) : list Article :=
  if showBookmarks
  then filter (λ article, matchesQuery searchQuery article = true) bookmarks
  else filter (λ article, matchesQuery searchQuery article = true) articles.

(** ** Pagination *)

(** [Math.ceil(filteredArticles.length / itemsPerPage)] *)
Definition totalPages (filteredArticles : list Article) (itemsPerPage : Z) : Z :=
  Qceiling (inject_Z (Z.of_nat (length filteredArticles)) / inject_Z itemsPerPage).

Definition startIndex (currentPage itemsPerPage : Z) : Z :=
  ((currentPage - 1) * itemsPerPage)%Z.

(** [Array.prototype.slice(start, end)]: a negative index counts from the
    end of the array, and both indices are clamped to it. *)
Definition slice {A : Type} (l : list A) (start end_ : Z) : list A :=
  let len := Z.of_nat (length l) in
  let k := if decide (start < 0)%Z then Z.max (len + start) 0 else Z.min start len in
  let final := if decide (end_ < 0)%Z then Z.max (len + end_) 0 else Z.min end_ len in
  take (Z.to_nat (final - k)) (drop (Z.to_nat k) l).

Definition currentArticles (filteredArticles : list Article)
    (currentPage itemsPerPage : Z) : list Article :=
  slice filteredArticles (startIndex currentPage itemsPerPage)
        (startIndex currentPage itemsPerPage + itemsPerPage).

(** The page stored after [goToPage(page)]. *)
Definition goToPage (totalPages currentPage page : Z) : Z :=
  if bool_decide (1 ≤ page)%Z && bool_decide (page ≤ totalPages)%Z
  then page else currentPage.

(** ** The component state and its handlers

    The [useState] cells the claims are about, and one event per handler or
    effect that writes them. *)
Record AppState := mkAppState {
  st_articles : list Article;
  st_searchQuery : string;
  st_bookmarks : list Article;
  st_showBookmarks : bool;
  st_currentPage : Z;
  st_itemsPerPage : Z;
  st_viewMode : string;
  st_darkMode : bool
}.

(** The state after the mount effects: [savedBookmarks] is what
    [sessionStorage] held, [savedDarkMode] what [localStorage] held. *)
Definition initialState (savedBookmarks : list Article) (savedDarkMode : bool) : AppState :=
  {| st_articles := [];
     st_searchQuery := "";
     st_bookmarks := savedBookmarks;
     st_showBookmarks := false;
     st_currentPage := 1;
     st_itemsPerPage := 12;
     st_viewMode := "grid";
     st_darkMode := savedDarkMode |}.

Inductive Event :=
  | ArticlesFetched (r0 : settled (nullable NewsAPI.payload))
                    (r1 : settled (nullable GNews.payload))
                    (r2 : settled (nullable Guardian.payload))
  | AddBookmark (now : string) (article : Article)
  | RemoveBookmark (articleId : string)
  | ClearAllBookmarks
  | ToggleDarkMode
  | SetSearchQuery (value : string)
  | SetShowBookmarks (value : bool)
  | SetViewMode (value : string)
  | SelectItemsPerPage (value : Z)
  | Resize (width : Z)
  | GoToPage (page : Z).

(** [updateItemsPerPage] *)
Definition updateItemsPerPage (width : Z) : Z :=
  if bool_decide (width < 640)%Z then 6
  else if bool_decide (width < 1024)%Z then 8
  else 12.

Definition st_filteredArticles (st : AppState) : list Article :=
  filteredArticles (st_showBookmarks st) (st_bookmarks st) (st_articles st)
                   (st_searchQuery st).

Definition st_totalPages (st : AppState) : Z :=
  totalPages (st_filteredArticles st) (st_itemsPerPage st).

Definition st_currentArticles (st : AppState) : list Article :=
  currentArticles (st_filteredArticles st) (st_currentPage st) (st_itemsPerPage st).

Definition setBookmarks (st : AppState) (bookmarks : list Article) : AppState :=
  {| st_articles := st_articles st; st_searchQuery := st_searchQuery st;
     st_bookmarks := bookmarks; st_showBookmarks := st_showBookmarks st;
     st_currentPage := st_currentPage st; st_itemsPerPage := st_itemsPerPage st;
     st_viewMode := st_viewMode st; st_darkMode := st_darkMode st |}.

Definition setCurrentPage (st : AppState) (page : Z) : AppState :=
  {| st_articles := st_articles st; st_searchQuery := st_searchQuery st;
     st_bookmarks := st_bookmarks st; st_showBookmarks := st_showBookmarks st;
     st_currentPage := page; st_itemsPerPage := st_itemsPerPage st;
     st_viewMode := st_viewMode st; st_darkMode := st_darkMode st |}.

(** The effect on [[showBookmarks, searchQuery, viewMode]]: back to page 1
    when one of the three changed. *)
Definition resetPageIfChanged (old new : AppState) : AppState :=
  if bool_decide (st_showBookmarks old = st_showBookmarks new ∧
                  st_searchQuery old = st_searchQuery new ∧
                  st_viewMode old = st_viewMode new)
  then new else setCurrentPage new 1.

Definition step (st : AppState) (ev : Event) : AppState :=
  match ev with
  | ArticlesFetched r0 r1 r2 =>
      match fetchAllNews r0 r1 r2 with
      | Some articles =>
          {| st_articles := articles; st_searchQuery := st_searchQuery st;
             st_bookmarks := st_bookmarks st; st_showBookmarks := st_showBookmarks st;
             st_currentPage := st_currentPage st; st_itemsPerPage := st_itemsPerPage st;
             st_viewMode := st_viewMode st; st_darkMode := st_darkMode st |}
      | None => st
      end
  | AddBookmark now article =>
      setBookmarks st (addBookmark now article (st_bookmarks st))
  | RemoveBookmark articleId =>
      setBookmarks st (removeBookmark articleId (st_bookmarks st))
  | ClearAllBookmarks =>
      setBookmarks st (clearAllBookmarks (st_bookmarks st))
  | ToggleDarkMode =>
      {| st_articles := st_articles st; st_searchQuery := st_searchQuery st;
         st_bookmarks := st_bookmarks st; st_showBookmarks := st_showBookmarks st;
         st_currentPage := st_currentPage st; st_itemsPerPage := st_itemsPerPage st;
         st_viewMode := st_viewMode st; st_darkMode := toggleDarkMode (st_darkMode st) |}
  | SetSearchQuery value =>
      resetPageIfChanged st
        {| st_articles := st_articles st; st_searchQuery := value;
           st_bookmarks := st_bookmarks st; st_showBookmarks := st_showBookmarks st;
           st_currentPage := st_currentPage st; st_itemsPerPage := st_itemsPerPage st;
           st_viewMode := st_viewMode st; st_darkMode := st_darkMode st |}
  | SetShowBookmarks value =>
      resetPageIfChanged st
        {| st_articles := st_articles st; st_searchQuery := st_searchQuery st;
           st_bookmarks := st_bookmarks st; st_showBookmarks := value;
           st_currentPage := st_currentPage st; st_itemsPerPage := st_itemsPerPage st;
           st_viewMode := st_viewMode st; st_darkMode := st_darkMode st |}
  | SetViewMode value =>
      resetPageIfChanged st
        {| st_articles := st_articles st; st_searchQuery := st_searchQuery st;
           st_bookmarks := st_bookmarks st; st_showBookmarks := st_showBookmarks st;
           st_currentPage := st_currentPage st; st_itemsPerPage := st_itemsPerPage st;
           st_viewMode := value; st_darkMode := st_darkMode st |}
  | SelectItemsPerPage value =>
      {| st_articles := st_articles st; st_searchQuery := st_searchQuery st;
         st_bookmarks := st_bookmarks st; st_showBookmarks := st_showBookmarks st;
         st_currentPage := 1; st_itemsPerPage := value;
         st_viewMode := st_viewMode st; st_darkMode := st_darkMode st |}
  | Resize width =>
      {| st_articles := st_articles st; st_searchQuery := st_searchQuery st;
         st_bookmarks := st_bookmarks st; st_showBookmarks := st_showBookmarks st;
         st_currentPage := st_currentPage st;
         st_itemsPerPage := updateItemsPerPage width;
         st_viewMode := st_viewMode st; st_darkMode := st_darkMode st |}
  | GoToPage page =>
      setCurrentPage st (goToPage (st_totalPages st) (st_currentPage st) page)
  end.

Definition run (st : AppState) (evs : list Event) : AppState := foldl step st evs.

(** ** Predicates used to state the properties *)

(** Adjacent articles are in descending [publishedAt] order, compared the
    way JS compares the two time values with [>=]. *)
Definition sortedByDateDesc (l : list Article) : Prop :=
  ∀ i a b, l !! i = Some a → l !! S i = Some b →
           ge (valueOf (publishedAt a)) (valueOf (publishedAt b)) = true.

Definition validDate (a : Article) : Prop := publishedAt a ≠ InvalidDate.

(** [a] is a normalized article of a source whose request was fulfilled
    with the expected payload shape. *)
Definition deliveredBy
    (r0 : settled (nullable NewsAPI.payload))
    (r1 : settled (nullable GNews.payload))
    (r2 : settled (nullable Guardian.payload)) (a : Article) : Prop :=
  (∃ value articles x,
      r0 = fulfilled (object value) ∧ NewsAPI.articles value = array articles ∧
      x ∈ articles ∧ normalizeNewsAPI x = Some a) ∨
  (∃ value articles x,
      r1 = fulfilled (object value) ∧ GNews.articles value = array articles ∧
      x ∈ articles ∧ normalizeGNews x = Some a) ∨
  (∃ value response results x,
      r2 = fulfilled (object value) ∧
      Guardian.payload_response value = Some response ∧
      Guardian.results response = array results ∧
      x ∈ results ∧ normalizeGuardian x = Some a).

(** The list is absent, or an array of objects that satisfy [ok]. *)
Definition wellShapedList {A : Type} (ok : A → Prop) (field : listField A) : Prop :=
  match field with
  | falsy => True
  | notAnArray => False
  | array items => Forall (λ item, ∃ x, item = object x ∧ ok x) items
  end.

(** The outcomes on which the block of a source runs through: a rejected
    request, or a fulfilled one whose value is an object in which the list
    is absent or an array of article objects (with a [source] object, for
    NewsAPI and GNews). *)
Definition wellShapedNewsAPI (r : settled (nullable NewsAPI.payload)) : Prop :=
  match r with
  | rejected => True
  | fulfilled null => False
  | fulfilled (object value) =>
      wellShapedList (λ x, NewsAPI.source x ≠ null) (NewsAPI.articles value)
  end.

Definition wellShapedGNews (r : settled (nullable GNews.payload)) : Prop :=
  match r with
  | rejected => True
  | fulfilled null => False
  | fulfilled (object value) =>
      wellShapedList (λ x, GNews.source x ≠ null) (GNews.articles value)
  end.

Definition wellShapedGuardian (r : settled (nullable Guardian.payload)) : Prop :=
  match r with
  | rejected => True
  | fulfilled null => False
  | fulfilled (object value) =>
      match Guardian.payload_response value with
      | None => True
      | Some response => wellShapedList (λ _, True) (Guardian.results response)
      end
  end.

(** The lowercased title contains the lowercased query as a substring. *)
Definition lowerContains (searchQuery : string) (article : Article) : Prop :=
  ∃ pre post,
    toLowerCase (title article) = pre +:+ toLowerCase searchQuery +:+ post.

(** ** Sample data *)

(** Two articles, the second one without a usable date. *)
Definition dated : Article :=
  {| id := "https://a.example/1"; title := "Dated"; url := "https://a.example/1";
     imageUrl := None; source := "A"; publishedAt := Millis 1700000000000;
     apiSource := "NewsAPI"; bookmarkedAt := None |}.

Definition undated : Article :=
  {| id := "https://a.example/2"; title := "Undated"; url := "https://a.example/2";
     imageUrl := None; source := "A"; publishedAt := InvalidDate;
     apiSource := "NewsAPI"; bookmarkedAt := None |}.

(** A later record with the id of [dated]. *)
Definition datedAgain : Article :=
  {| id := "https://a.example/1"; title := "Dated, via GNews";
     url := "https://a.example/1"; imageUrl := None; source := "B";
     publishedAt := Millis 1700000000000; apiSource := "GNews";
     bookmarkedAt := None |}.

Definition older : Article :=
  {| id := "https://a.example/3"; title := "Older"; url := "https://a.example/3";
     imageUrl := None; source := "A"; publishedAt := Millis 1600000000000;
     apiSource := "GNews"; bookmarkedAt := None |}.

(** NewsAPI and GNews both report the same story; The Guardian is down. *)
Definition wireStory : NewsAPI.article :=
  NewsAPI.mkArticle "https://x.example/story" "Story" None
                    (object (NewsAPI.mkSource "Wire")) (Millis 1700000000000).

Definition gnewsStory : GNews.article :=
  GNews.mkArticle "https://x.example/story" "Story" None
                  (object (GNews.mkSource "Wire")) (Millis 1700000000000).

Definition newsApiOk : settled (nullable NewsAPI.payload) :=
  fulfilled (object (NewsAPI.mkPayload (array [object wireStory]))).

Definition gnewsOk : settled (nullable GNews.payload) :=
  fulfilled (object (GNews.mkPayload (array [object gnewsStory]))).

(** The two normalized records of that story. *)
Definition wireArticle : Article :=
  {| id := "https://x.example/story"; title := "Story";
     url := "https://x.example/story"; imageUrl := None; source := "Wire";
     publishedAt := Millis 1700000000000; apiSource := "NewsAPI";
     bookmarkedAt := None |}.

Definition gnewsArticle : Article :=
  {| id := "https://x.example/story"; title := "Story";
     url := "https://x.example/story"; imageUrl := None; source := "Wire";
     publishedAt := Millis 1700000000000; apiSource := "GNews";
     bookmarkedAt := None |}.

(** A second article without a usable date. *)
Definition undatedToo : Article :=
  {| id := "https://a.example/4"; title := "Undated too";
     url := "https://a.example/4"; imageUrl := None; source := "B";
     publishedAt := InvalidDate; apiSource := "GNews"; bookmarkedAt := None |}.

(** ** Cards ([NewsCard], [NewsCardList]) *)

(** The [switch] of [getApiSourceColor]. *)
Definition getApiSourceColor (apiSource : string) : string :=
  if decide (apiSource = "NewsAPI") then "bg-blue-500"
  else if decide (apiSource = "GNews") then "bg-green-500"
  else if decide (apiSource = "The Guardian") then "bg-purple-500"
  else "bg-gray-500".

(** [handleBookmarkClick], with the [isBookmarked], [onBookmark] and
    [onRemoveBookmark] props that [App] passes for [article]: the new
    bookmark list. *)
Definition handleBookmarkClick (now : string) (article : Article)
    (bookmarks : list Article) : list Article :=
  if isBookmarked bookmarks (id article)
  then removeBookmark (id article) bookmarks
  else addBookmark now article bookmarks.

(** ** Pagination controls *)

(** The page number computed for button [i] of the desktop pager. *)
Definition pageNum (totalPages currentPage i : Z) : Z :=
  if bool_decide (totalPages ≤ 9)%Z then (i + 1)%Z
  else if bool_decide (currentPage ≤ 5)%Z then (i + 1)%Z
  else if bool_decide (totalPages - 4 ≤ currentPage)%Z then (totalPages - 8 + i)%Z
  else (currentPage - 4 + i)%Z.

(** The callback of [Array.from]: [None] is [return null]. *)
Definition pageButton (totalPages currentPage i : Z) : option Z :=
  let pageNum := pageNum totalPages currentPage i in
  if bool_decide (pageNum < 1)%Z || bool_decide (totalPages < pageNum)%Z
  then None else Some pageNum.

(** The pager sits inside [currentArticles.length > 0 ? ...] and
    [totalPages > 1 && ...]. *)
Definition pagerShown (currentArticles : list Article) (totalPages : Z) : bool :=
  bool_decide (0 < length currentArticles)%nat && bool_decide (1 < totalPages)%Z.

(** The buttons of the desktop pager,
    [Array.from({ length: Math.min(9, totalPages) }, (_, i) => ...)];
    [None] when the pager is not rendered. *)
Definition pageButtons (currentArticles : list Article)
    (totalPages currentPage : Z) : option (list (option Z)) :=
  if pagerShown currentArticles totalPages
  then Some (pageButton totalPages currentPage <$> seqZ 0 (Z.min 9 totalPages))
  else None.

(** [goToPage(currentPage - 1)] and [goToPage(currentPage + 1)] *)
Definition previousPage (totalPages currentPage : Z) : Z :=
  goToPage totalPages currentPage (currentPage - 1).

Definition nextPage (totalPages currentPage : Z) : Z :=
  goToPage totalPages currentPage (currentPage + 1).

(** [disabled={currentPage === 1}] and [disabled={currentPage === totalPages}] *)
Definition previousDisabled (currentPage : Z) : bool :=
  bool_decide (currentPage = 1%Z).

Definition nextDisabled (totalPages currentPage : Z) : bool :=
  bool_decide (currentPage = totalPages).

(** "Showing [startIndex + 1] to
    [Math.min(startIndex + itemsPerPage, filteredArticles.length)]" *)
Definition showingFrom (currentPage itemsPerPage : Z) : Z :=
  (startIndex currentPage itemsPerPage + 1)%Z.

Definition showingTo (filteredArticles : list Article)
    (currentPage itemsPerPage : Z) : Z :=
  Z.min (startIndex currentPage itemsPerPage + itemsPerPage)
        (Z.of_nat (length filteredArticles)).

(** The [<option>] values of the items-per-page selector. *)
Definition itemsPerPageOptions : list Z := [6; 8; 12; 16; 24]%Z.

Definition selectsAnOption (ev : Event) : Prop :=
  match ev with
  | SelectItemsPerPage value => value ∈ itemsPerPageOptions
  | _ => True
  end.

(** ** Theme persistence

    [classList] is the set of class tokens of the root element,
    [localStorage] a map from keys to strings. *)

(** [localStorage.getItem('theme') || 'light'] *)
Definition initialTheme (localStorage : gmap string string) : string :=
  match localStorage !! "theme" with
  | Some theme => if decide (theme = "") then "light" else theme
  | None => "light"
  end.

(** The characters that [DOMTokenList] rejects inside a token. *)
Definition isTokenSeparator (c : Ascii.ascii) : bool :=
  bool_decide (c ∈ [Ascii.ascii_of_nat 9; Ascii.ascii_of_nat 10;
                    Ascii.ascii_of_nat 12; Ascii.ascii_of_nat 13;
                    Ascii.ascii_of_nat 32]).

Fixpoint hasTokenSeparator (s : string) : bool :=
  match s with
  | EmptyString => false
  | String c s' => isTokenSeparator c || hasTokenSeparator s'
  end.

(** The effect of [useTheme]: [None] when [classList.add] throws (an empty
    token, or one with white space), in which case nothing is stored. *)
Definition themeEffect (theme : string) (classList : gset string)
    (localStorage : gmap string string)
  : option (gset string * gmap string string) :=
  let prevTheme := if decide (theme = "dark") then "light" else "dark" in
  if decide (theme = "") then None
  else if hasTokenSeparator theme then None
  else Some ((classList ∖ {[prevTheme]}) ∪ {[theme]},
             <["theme" := theme]> localStorage).

(** [localStorage.getItem('darkMode') === 'true'] *)
Definition loadDarkMode (localStorage : gmap string string) : bool :=
  bool_decide (localStorage !! "darkMode" = Some "true").

(** The effect of [App] on [darkMode]. *)
Definition darkModeEffect (darkMode : bool) (classList : gset string)
    (localStorage : gmap string string) : gset string * gmap string string :=
  (if darkMode then classList ∪ {["dark"]} else classList ∖ {["dark"]},
   <["darkMode" := if darkMode then "true" else "false"]> localStorage).

(** Seven bookmarks with ids "1" to "7". *)
Definition numbered (n : string) : Article :=
  {| id := n; title := "Article " +:+ n; url := "https://a.example/" +:+ n;
     imageUrl := None; source := "A"; publishedAt := Millis 1700000000000;
     apiSource := "NewsAPI"; bookmarkedAt := Some "2024-01-01T00:00:00.000Z" |}.

Definition sevenBookmarks : list Article :=
  numbered <$> ["1"; "2"; "3"; "4"; "5"; "6"; "7"].

(** * Properties *)

(** ** Facts about the [Map] model *)
Section jsmap_facts.
Context {K V : Type} `{EqDecision K}.
Import JSMap.
Implicit Types (m es : list (K * V)) (k : K) (v : V).

Lemma set_keys m k v :
  (set m k v).*1 = if decide (k ∈ m.*1) then m.*1 else m.*1 ++ [k].
Proof.
  induction m as [|[k' v'] m IH].
  - by case_decide as Hin; [apply elem_of_nil in Hin |].
  - cbn [set]. destruct (decide (k' = k)) as [->|Hne].
    + cbn. rewrite decide_True; [done | by left].
    + rewrite !fmap_cons, IH. cbn [fst].
      destruct (decide (k ∈ m.*1)) as [Hin|Hin].
      * rewrite decide_True; [done | by right].
      * rewrite decide_False; [done |].
        intros [->|?]%elem_of_cons; done.
Qed.

Lemma set_NoDup m k v : NoDup m.*1 → NoDup (set m k v).*1.
Proof.
  intros Hnd. rewrite set_keys. case_decide; [done |].
  apply NoDup_app. split_and!; [done | | apply NoDup_singleton].
  intros x Hx ->%list_elem_of_singleton. done.
Qed.

Lemma get_set m k v k' :
  get (set m k v) k' = if decide (k = k') then Some v else get m k'.
Proof.
  induction m as [|[k0 v0] m IH]; simpl.
  - done.
  - destruct (decide (k0 = k)) as [->|Hne]; simpl.
    + by destruct (decide (k = k')).
    + rewrite IH. destruct (decide (k0 = k')) as [->|?]; [|done].
      by rewrite decide_False.
Qed.

Lemma get_Some_elem_of m k v : get m k = Some v → (k, v) ∈ m.
Proof.
  induction m as [|[k' v'] m IH]; simpl; [done |].
  destruct (decide (k' = k)) as [->|?].
  - intros [= ->]. by left.
  - intros ?. right. auto.
Qed.

Lemma elem_of_get m k v : NoDup m.*1 → (k, v) ∈ m → get m k = Some v.
Proof.
  induction m as [|[k' v'] m IH]; simpl.
  - by intros _ ?%elem_of_nil.
  - intros [Hk Hnd]%NoDup_cons [[= -> ->]|Hin]%elem_of_cons.
    + by rewrite decide_True.
    + rewrite decide_False; [by apply IH |].
      intros ->. apply Hk. apply list_elem_of_fmap. by exists (k, v).
Qed.

Lemma of_entries_snoc es e :
  of_entries (es ++ [e]) = set (of_entries es) e.1 e.2.
Proof. unfold of_entries. by rewrite foldl_app. Qed.

Lemma of_entries_NoDup es : NoDup (of_entries es).*1.
Proof.
  induction es as [|e es IH] using rev_ind.
  - apply NoDup_nil_2.
  - rewrite of_entries_snoc. by apply set_NoDup.
Qed.

(** Looking a key up in [new Map(entries)] gives the value of the last
    entry with that key. *)
Lemma get_of_entries es k :
  get (of_entries es) k = snd <$> last (filter (λ e, e.1 = k) es).
Proof.
  induction es as [|e es IH] using rev_ind; [done |].
  rewrite of_entries_snoc, get_set, filter_app, filter_cons, filter_nil.
  destruct (decide (e.1 = k)) as [Heq|Hne].
  - by rewrite last_snoc.
  - by rewrite app_nil_r.
Qed.

(** Every entry of [new Map(entries)] is one of [entries]. *)
Lemma elem_of_of_entries es k v : (k, v) ∈ of_entries es → (k, v) ∈ es.
Proof.
  intros Hin. apply elem_of_get in Hin; [|apply of_entries_NoDup].
  rewrite get_of_entries in Hin.
  destruct (last _) as [[k' v']|] eqn:Hlast; simplify_eq/=.
  apply last_Some_elem_of, list_elem_of_filter in Hlast as [Hk ?].
  by simplify_eq/=.
Qed.
End jsmap_facts.

Lemma filter_fmap {A B} (f : A → B) (P : B → Prop) `{∀ y, Decision (P y)}
    (l : list A) :
  filter P (f <$> l) = f <$> filter (λ x, P (f x)) l.
Proof.
  induction l as [|x l IH]; [done |].
  rewrite fmap_cons, !filter_cons. case_decide; by rewrite ?fmap_cons, IH.
Qed.

(** ** Deduplication *)

Lemma uniqueArticles_entries combined k a :
  (k, a) ∈ JSMap.of_entries (entriesOf combined) → k = id a ∧ a ∈ combined.
Proof.
  intros Hin%elem_of_of_entries.
  apply list_elem_of_fmap in Hin as (x & [= -> ->] & ?). done.
Qed.

Lemma uniqueArticles_keys combined :
  id <$> uniqueArticles combined = (JSMap.of_entries (entriesOf combined)).*1.
Proof.
  unfold uniqueArticles, JSMap.values.
  pose proof (uniqueArticles_entries combined) as Hall.
  induction (JSMap.of_entries (entriesOf combined)) as [|[k a] m IH]; [done |].
  rewrite !fmap_cons. cbn [fst snd]. f_equal.
  - symmetry. eapply Hall. by left.
  - apply IH. intros k' a' ?. apply Hall. by right.
Qed.

Lemma elem_of_uniqueArticles combined a :
  a ∈ uniqueArticles combined ↔
  last (filter (λ x, id x = id a) combined) = Some a.
Proof.
  unfold uniqueArticles, JSMap.values.
  assert (last (filter (λ x, id x = id a) combined)
          = JSMap.get (JSMap.of_entries (entriesOf combined)) (id a)) as ->.
  { rewrite get_of_entries. unfold entriesOf.
    rewrite (filter_fmap _ (λ e, e.1 = id a)), fmap_last, <-option_fmap_compose.
    cbn. by rewrite option_fmap_id. }
  split.
  - intros ([k a'] & -> & Hin)%list_elem_of_fmap. cbn.
    destruct (uniqueArticles_entries _ _ _ Hin) as [-> _].
    apply elem_of_get; [apply of_entries_NoDup | done].
  - intros Hget%get_Some_elem_of. apply list_elem_of_fmap. by exists (id a, a).
Qed.

Lemma uniqueArticles_covers_ids combined x :
  x ∈ combined → ∃ a, a ∈ uniqueArticles combined ∧ id a = id x.
Proof.
  intros Hx.
  destruct (last (filter (λ y, id y = id x) combined)) as [a|] eqn:Hlast.
  - pose proof (last_Some_elem_of _ _ Hlast) as [Hid _]%list_elem_of_filter.
    exists a. split; [|done]. apply elem_of_uniqueArticles.
    by rewrite (list_filter_iff _ (λ y, id y = id x)) by (intros; by rewrite Hid).
  - apply last_None in Hlast.
    assert (x ∈ filter (λ y, id y = id x) combined) as Hin
      by by apply list_elem_of_filter.
    rewrite Hlast in Hin. by apply elem_of_nil in Hin.
Qed.

Example uniqueArticles_collapses :
  uniqueArticles [dated; older; datedAgain] = [datedAgain; older].
Proof. reflexivity. Qed.

(** C1: the deduplicated array has pairwise distinct ids, and the record it
    keeps for an id is the last article of the concatenation that carries
    that id (last write wins); no id of the concatenation is lost. *)
Theorem uniqueArticles_last_write_wins (combined : list Article) :
  NoDup (id <$> uniqueArticles combined) ∧
  (∀ a, a ∈ uniqueArticles combined ↔
        last (filter (λ x, id x = id a) combined) = Some a) ∧
  (∀ x, x ∈ combined → ∃ a, a ∈ uniqueArticles combined ∧ id a = id x).
Proof.
  split_and!.
  - rewrite uniqueArticles_keys. apply of_entries_NoDup.
  - apply elem_of_uniqueArticles.
  - apply uniqueArticles_covers_ids.
Qed.

(** ** Sorting by date *)

Section sort_facts.
Context {A : Type} (comparefn : A → A → number).
Let R := inOrder comparefn.

Lemma insert_Permutation x l : insert comparefn x l ≡ₚ x :: l.
Proof.
  induction l as [|y l IH]; cbn; [done |].
  case_decide; [done |]. by rewrite IH, Permutation_swap.
Qed.

Lemma sort_cons x l :
  sort comparefn (x :: l) = insert comparefn x (sort comparefn l).
Proof. done. Qed.

Lemma sort_Permutation l : sort comparefn l ≡ₚ l.
Proof.
  induction l as [|x l IH]; [done |].
  rewrite sort_cons. by rewrite insert_Permutation, IH.
Qed.

Lemma insert_HdRel x y l :
  R y x → HdRel R y l → HdRel R y (insert comparefn x l).
Proof.
  intros Hyx Hhd. destruct Hhd as [|z l Hyz]; cbn.
  - by constructor.
  - case_decide; by constructor.
Qed.

(** Insertion keeps the array sorted as long as the comparator orders
    every two members of the domain [P] one way or the other. *)
Lemma insert_Sorted (P : A → Prop) x l :
  (∀ a b, P a → P b → ¬ R a b → R b a) →
  P x → Forall P l → Sorted R l → Sorted R (insert comparefn x l).
Proof.
  intros Htot Hx Hall Hsorted.
  induction Hsorted as [|y l Hl IH Hhd]; cbn.
  - by repeat constructor.
  - apply Forall_cons in Hall as [Hy Hall].
    case_decide as Hxy.
    + by repeat constructor.
    + constructor; [by apply IH |]. apply insert_HdRel; auto.
Qed.

Lemma sort_Sorted (P : A → Prop) l :
  (∀ a b, P a → P b → ¬ R a b → R b a) →
  Forall P l → Sorted R (sort comparefn l).
Proof.
  intros Htot Hall. induction Hall as [|x l Hx Hall IH].
  - constructor.
  - rewrite sort_cons. apply (insert_Sorted P); [done | done | | done].
    by rewrite sort_Permutation.
Qed.

Lemma Sorted_adjacent l i a b :
  Sorted R l → l !! i = Some a → l !! S i = Some b → R a b.
Proof.
  intros Hsorted. revert i.
  induction Hsorted as [|x l Hl IH Hhd]; intros i Ha Hb; [done |].
  destruct i as [|i]; cbn in *.
  - simplify_eq. destruct Hhd; by simplify_eq/=.
  - by apply (IH i).
Qed.
End sort_facts.

Lemma byDateDesc_valid a b :
  validDate a → validDate b →
  inOrder byDateDesc a b ↔
  ge (valueOf (publishedAt a)) (valueOf (publishedAt b)) = true.
Proof.
  unfold validDate, inOrder, SortCompare, byDateDesc.
  destruct (publishedAt a), (publishedAt b); intros ??; try done; cbn.
  rewrite bool_decide_eq_true. lia.
Qed.

(** C2, as amended: when every [publishedAt] is a valid date, sorting
    returns a rearrangement of the array in which every article is at least
    as recent as the one right after it. *)
Theorem sort_byDateDesc_descending (l : list Article) :
  Forall validDate l →
  sort byDateDesc l ≡ₚ l ∧ sortedByDateDesc (sort byDateDesc l).
Proof.
  intros Hvalid. split; [apply sort_Permutation |].
  assert (Sorted (inOrder byDateDesc) (sort byDateDesc l)) as Hsorted.
  { apply (sort_Sorted _ validDate); [|done].
    intros a b Ha Hb. rewrite !byDateDesc_valid by done.
    unfold validDate in *. destruct (publishedAt a), (publishedAt b); try done.
    cbn. rewrite !bool_decide_eq_true. lia. }
  assert (Forall validDate (sort byDateDesc l)) as Hvalid'
    by by rewrite sort_Permutation.
  intros i a b Ha Hb.
  apply byDateDesc_valid.
  - by eapply Forall_lookup_1.
  - by eapply Forall_lookup_1.
  - by eapply Sorted_adjacent.
Qed.

Example sort_dated : sort byDateDesc [older; dated] = [dated; older].
Proof. reflexivity. Qed.

Lemma sort_byDateDesc_descending_witness :
  Forall validDate [older; dated] ∧
  sort byDateDesc [older; dated] ≡ₚ [older; dated] ∧
  sortedByDateDesc (sort byDateDesc [older; dated]).
Proof.
  split; [|apply sort_byDateDesc_descending]; repeat constructor; done.
Defined.

(** With an undated article between them, an older article stays in front
    of a newer one: every comparison that involves the undated article
    returns NaN, read as "keep the order". *)
Example sort_around_undated :
  sort byDateDesc [older; undated; dated] = [older; undated; dated].
Proof. reflexivity. Qed.

(** An article whose [publishedAt] is not a date makes the comparator return
    NaN; wherever the sort leaves it, it sits next to an article that it does
    not compare [>=] with. *)
Lemma sort_invalid_date_not_descending :
  ¬ (∀ combined : list Article,
       sortedByDateDesc (sort byDateDesc (uniqueArticles combined))).
Proof.
  intros Hall. specialize (Hall [dated; undated] 0%nat dated undated).
  by specialize (Hall eq_refl eq_refl).
Qed.

(** No ordering of the two articles is descending, so the failure does not
    hinge on how the engine sorts under an inconsistent comparator. *)
Lemma invalid_date_never_descending l :
  l ≡ₚ [dated; undated] → ¬ sortedByDateDesc l.
Proof.
  intros Hperm Hdesc.
  pose proof (Permutation_length Hperm) as Hlen.
  destruct l as [|a [|b [|]]]; try done.
  specialize (Hdesc 0%nat a b eq_refl eq_refl).
  assert (a ∈ [dated; undated]) as Ha.
  { rewrite <-Hperm. by left. }
  assert (b ∈ [dated; undated]) as Hb.
  { rewrite <-Hperm. right. by left. }
  assert (NoDup [a; b]) as [Hab _]%NoDup_cons.
  { rewrite Hperm. apply NoDup_cons. split; [|apply NoDup_singleton].
    by intros [=]%list_elem_of_singleton. }
  rewrite list_elem_of_singleton in Hab.
  apply elem_of_cons in Ha as [->|Ha], Hb as [->|Hb];
    rewrite ?list_elem_of_singleton in *; subst; done.
Qed.

(** ** Aggregation of the three sources *)

Lemma elem_of_mapM {A B} (f : A → option B) (items : list A) (l : list B) b :
  mapM f items = Some l → b ∈ l ↔ ∃ x, x ∈ items ∧ f x = Some b.
Proof.
  intros Hall%mapM_Some. induction Hall as [|x y items l Hxy Hall IH].
  - split; [by intros ?%elem_of_nil | by intros (? & ?%elem_of_nil & _)].
  - rewrite elem_of_cons, IH. split.
    + intros [-> | (x' & ? & ?)]; [exists x | exists x'];
        (split; [|done]); by constructor.
    + intros (x' & [-> | ?]%elem_of_cons & Hx'); [left; congruence |].
      right. by exists x'.
Qed.

Lemma wellShapedList_is_Some {A} (ok : A → Prop)
    (f : nullable A → option Article) (field : listField A) :
  (∀ item, is_Some (f item) ↔ ∃ x, item = object x ∧ ok x) →
  is_Some (match field with
           | falsy => Some []
           | notAnArray => None
           | array items => mapM f items
           end) ↔ wellShapedList ok field.
Proof.
  intros Hf. destruct field as [| |items]; cbn.
  - split; [done | by eexists].
  - split; [by intros [] | done].
  - rewrite mapM_is_Some. apply Forall_iff. intros item. apply Hf.
Qed.

Lemma normalizeNewsAPI_is_Some item :
  is_Some (normalizeNewsAPI item) ↔
  ∃ x, item = object x ∧ NewsAPI.source x ≠ null.
Proof.
  destruct item as [|x]; cbn.
  - split; [by intros [] | by intros (? & ? & _)].
  - destruct (NewsAPI.source x) eqn:Hsource; split.
    + by intros [].
    + intros (? & [= <-] & ?). congruence.
    + intros _. exists x. split; [done | congruence].
    + by eexists.
Qed.

Lemma normalizeGNews_is_Some item :
  is_Some (normalizeGNews item) ↔
  ∃ x, item = object x ∧ GNews.source x ≠ null.
Proof.
  destruct item as [|x]; cbn.
  - split; [by intros [] | by intros (? & ? & _)].
  - destruct (GNews.source x) eqn:Hsource; split.
    + by intros [].
    + intros (? & [= <-] & ?). congruence.
    + intros _. exists x. split; [done | congruence].
    + by eexists.
Qed.

Lemma normalizeGuardian_is_Some item :
  is_Some (normalizeGuardian item) ↔ ∃ x, item = object x ∧ True.
Proof.
  destruct item as [|x]; cbn.
  - split; [by intros [] | by intros (? & ? & _)].
  - split; [by exists x | by eexists].
Qed.

(** The block of a source runs through exactly on the well-shaped
    outcomes; on the others it throws. *)
Lemma fromNewsAPI_is_Some r : is_Some (fromNewsAPI r) ↔ wellShapedNewsAPI r.
Proof.
  destruct r as [[|value]|]; cbn.
  - split; [by intros [] | done].
  - apply wellShapedList_is_Some, normalizeNewsAPI_is_Some.
  - split; [done | by eexists].
Qed.

Lemma fromGNews_is_Some r : is_Some (fromGNews r) ↔ wellShapedGNews r.
Proof.
  destruct r as [[|value]|]; cbn.
  - split; [by intros [] | done].
  - apply wellShapedList_is_Some, normalizeGNews_is_Some.
  - split; [done | by eexists].
Qed.

Lemma fromGuardian_is_Some r : is_Some (fromGuardian r) ↔ wellShapedGuardian r.
Proof.
  destruct r as [[|value]|]; cbn.
  - split; [by intros [] | done].
  - destruct (Guardian.payload_response value) as [response|].
    + apply wellShapedList_is_Some, normalizeGuardian_is_Some.
    + split; [done | by eexists].
  - split; [done | by eexists].
Qed.

Lemma combinedArticles_Some r0 r1 r2 combined :
  combinedArticles r0 r1 r2 = Some combined ↔
  ∃ newsApi gnews guardian,
    fromNewsAPI r0 = Some newsApi ∧ fromGNews r1 = Some gnews ∧
    fromGuardian r2 = Some guardian ∧ combined = newsApi ++ gnews ++ guardian.
Proof.
  unfold combinedArticles. split.
  - destruct (fromNewsAPI r0) as [l0|]; [|done].
    destruct (fromGNews r1) as [l1|]; [|done].
    destruct (fromGuardian r2) as [l2|]; [|done].
    intros [= <-]. by exists l0, l1, l2.
  - by intros (l0 & l1 & l2 & -> & -> & -> & ->).
Qed.

Lemma fetchAllNews_Some r0 r1 r2 merged :
  fetchAllNews r0 r1 r2 = Some merged ↔
  ∃ combined, combinedArticles r0 r1 r2 = Some combined ∧
              merged = sort byDateDesc (uniqueArticles combined).
Proof.
  unfold fetchAllNews. destruct (combinedArticles r0 r1 r2) as [combined|]; cbn.
  - split; [intros [= <-]; by exists combined | by intros (? & [= <-] & ->)].
  - split; [done | by intros (? & ? & _)].
Qed.

(** [fetchAllNews] hands a list to [setArticles] exactly when every
    outcome is well shaped. *)
Lemma fetchAllNews_is_Some r0 r1 r2 :
  is_Some (fetchAllNews r0 r1 r2) ↔
  wellShapedNewsAPI r0 ∧ wellShapedGNews r1 ∧ wellShapedGuardian r2.
Proof.
  rewrite <-fromNewsAPI_is_Some, <-fromGNews_is_Some, <-fromGuardian_is_Some.
  unfold fetchAllNews, combinedArticles.
  destruct (fromNewsAPI r0), (fromGNews r1), (fromGuardian r2); cbn;
    split; try (by intros []); try (by intros (? & ? & [])); try (by intros (? & [] & ?));
    try (by intros ([] & ? & ?)); intros; by eauto.
Qed.

Lemma elem_of_fromNewsAPI r l a :
  fromNewsAPI r = Some l →
  a ∈ l ↔
  ∃ value articles x, r = fulfilled (object value) ∧
    NewsAPI.articles value = array articles ∧ x ∈ articles ∧
    normalizeNewsAPI x = Some a.
Proof.
  destruct r as [[|value]|]; cbn; [done | |].
  - destruct (NewsAPI.articles value) as [| |items] eqn:Hitems; [|done|].
    + intros [= <-]. split; [by intros ?%elem_of_nil |].
      intros (? & ? & ? & [= <-] & Heq & _). by rewrite Hitems in Heq.
    + intros Hl. rewrite (elem_of_mapM _ _ _ _ Hl). split.
      * intros (x & ? & ?). by exists value, items, x.
      * intros (? & ? & x & [= <-] & Heq & ? & ?).
        rewrite Hitems in Heq. injection Heq as <-. by exists x.
  - intros [= <-]. split; [by intros ?%elem_of_nil |].
    by intros (? & ? & ? & ? & _).
Qed.

Lemma elem_of_fromGNews r l a :
  fromGNews r = Some l →
  a ∈ l ↔
  ∃ value articles x, r = fulfilled (object value) ∧
    GNews.articles value = array articles ∧ x ∈ articles ∧
    normalizeGNews x = Some a.
Proof.
  destruct r as [[|value]|]; cbn; [done | |].
  - destruct (GNews.articles value) as [| |items] eqn:Hitems; [|done|].
    + intros [= <-]. split; [by intros ?%elem_of_nil |].
      intros (? & ? & ? & [= <-] & Heq & _). by rewrite Hitems in Heq.
    + intros Hl. rewrite (elem_of_mapM _ _ _ _ Hl). split.
      * intros (x & ? & ?). by exists value, items, x.
      * intros (? & ? & x & [= <-] & Heq & ? & ?).
        rewrite Hitems in Heq. injection Heq as <-. by exists x.
  - intros [= <-]. split; [by intros ?%elem_of_nil |].
    by intros (? & ? & ? & ? & _).
Qed.

Lemma elem_of_fromGuardian r l a :
  fromGuardian r = Some l →
  a ∈ l ↔
  ∃ value response results x, r = fulfilled (object value) ∧
    Guardian.payload_response value = Some response ∧
    Guardian.results response = array results ∧
    x ∈ results ∧ normalizeGuardian x = Some a.
Proof.
  destruct r as [[|value]|]; cbn; [done | |].
  - destruct (Guardian.payload_response value) as [response|] eqn:Hresponse.
    + destruct (Guardian.results response) as [| |items] eqn:Hitems; [|done|].
      * intros [= <-]. split; [by intros ?%elem_of_nil |].
        intros (? & ? & ? & ? & [= <-] & Hr & Heq & _).
        rewrite Hresponse in Hr. injection Hr as <-. by rewrite Hitems in Heq.
      * intros Hl. rewrite (elem_of_mapM _ _ _ _ Hl). split.
        -- intros (x & ? & ?). by exists value, response, items, x.
        -- intros (? & ? & ? & x & [= <-] & Hr & Heq & ? & ?).
           rewrite Hresponse in Hr. injection Hr as <-.
           rewrite Hitems in Heq. injection Heq as <-. by exists x.
    + intros [= <-]. split; [by intros ?%elem_of_nil |].
      intros (? & ? & ? & ? & [= <-] & Hr & _). by rewrite Hresponse in Hr.
  - intros [= <-]. split; [by intros ?%elem_of_nil |].
    by intros (? & ? & ? & ? & ? & _).
Qed.

(** When no block throws, the concatenation holds exactly the delivered
    articles: a request that was rejected, or whose payload lacks the list,
    contributes nothing and takes nothing away. *)
Lemma elem_of_combinedArticles r0 r1 r2 combined a :
  combinedArticles r0 r1 r2 = Some combined →
  a ∈ combined ↔ deliveredBy r0 r1 r2 a.
Proof.
  intros (l0 & l1 & l2 & H0 & H1 & H2 & ->)%combinedArticles_Some.
  unfold deliveredBy.
  by rewrite !elem_of_app, (elem_of_fromNewsAPI _ _ _ H0),
    (elem_of_fromGNews _ _ _ H1), (elem_of_fromGuardian _ _ _ H2).
Qed.

Lemma elem_of_fetchAllNews r0 r1 r2 combined merged a :
  combinedArticles r0 r1 r2 = Some combined →
  fetchAllNews r0 r1 r2 = Some merged →
  a ∈ merged ↔ last (filter (λ x, id x = id a) combined) = Some a.
Proof.
  intros Hcombined (combined' & Hcombined' & ->)%fetchAllNews_Some.
  rewrite Hcombined in Hcombined'. injection Hcombined' as <-.
  by rewrite sort_Permutation, elem_of_uniqueArticles.
Qed.

(** C3, as amended: when every outcome is a rejection or a fulfilled
    object whose list is absent or an array of article objects, a merged
    result is produced whatever the mix of outcomes; an article delivered
    by a source is represented in it by an article with its id, and is in
    it itself whenever it is the last article of the concatenation with
    that id. *)
Theorem fetchAllNews_keeps_delivered r0 r1 r2 :
  wellShapedNewsAPI r0 → wellShapedGNews r1 → wellShapedGuardian r2 →
  ∃ combined merged,
    combinedArticles r0 r1 r2 = Some combined ∧
    fetchAllNews r0 r1 r2 = Some merged ∧
    ∀ a : Article, deliveredBy r0 r1 r2 a →
      (∃ a', a' ∈ merged ∧ id a' = id a) ∧
      (last (filter (λ x, id x = id a) combined) = Some a → a ∈ merged).
Proof.
  intros H0 H1 H2.
  destruct (proj2 (fetchAllNews_is_Some r0 r1 r2) (conj H0 (conj H1 H2)))
    as [merged Hmerged].
  pose proof Hmerged as (combined & Hcombined & Hsort)%fetchAllNews_Some.
  exists combined, merged. split_and!; [done | done |].
  intros a Hin%(elem_of_combinedArticles _ _ _ _ _ Hcombined). split.
  - destruct (uniqueArticles_covers_ids _ _ Hin) as (a' & ? & ?).
    exists a'. split; [|done]. by rewrite Hsort, sort_Permutation.
  - intros Hlast. by apply (elem_of_fetchAllNews r0 r1 r2 combined merged).
Qed.

Example fetchAllNews_same_story :
  fetchAllNews newsApiOk gnewsOk rejected = Some [gnewsArticle].
Proof. reflexivity. Qed.

(** A fulfilled [null] is dereferenced without a guard: the TypeError ends
    [fetchAllNews], and the articles of the healthy sources never reach
    [setArticles]. *)
Example fetchAllNews_null_payload :
  fetchAllNews (fulfilled null) gnewsOk rejected = None ∧
  fetchAllNews newsApiOk gnewsOk (fulfilled null) = None.
Proof. split; reflexivity. Qed.

Lemma wireStory_delivered :
  deliveredBy newsApiOk gnewsOk rejected wireArticle.
Proof.
  left. eexists _, _, (object wireStory).
  split_and!; [done | done | by left | done].
Qed.

Lemma gnewsStory_delivered :
  deliveredBy newsApiOk gnewsOk rejected gnewsArticle.
Proof.
  right; left. eexists _, _, (object gnewsStory).
  split_and!; [done | done | by left | done].
Defined.

(** The NewsAPI record of a story that GNews reports too is delivered, yet
    it is not in the merged result: the GNews record replaced it. *)
Lemma fetchAllNews_drops_replaced_duplicate :
  ¬ (∀ r0 r1 r2 a, deliveredBy r0 r1 r2 a →
       ∃ merged, fetchAllNews r0 r1 r2 = Some merged ∧ a ∈ merged).
Proof.
  intros Hall.
  destruct (Hall _ _ _ _ wireStory_delivered) as (merged & Hmerged & Hin).
  rewrite fetchAllNews_same_story in Hmerged. injection Hmerged as <-.
  by apply list_elem_of_singleton in Hin.
Qed.

Lemma fetchAllNews_keeps_delivered_witness :
  (wellShapedNewsAPI newsApiOk ∧ wellShapedGNews gnewsOk ∧
   wellShapedGuardian rejected) ∧
  ∃ merged, fetchAllNews newsApiOk gnewsOk rejected = Some merged ∧
            gnewsArticle ∈ merged.
Proof.
  assert (wellShapedNewsAPI newsApiOk) as H0.
  { constructor; [|constructor]. exists wireStory. split; [reflexivity | discriminate]. }
  assert (wellShapedGNews gnewsOk) as H1.
  { constructor; [|constructor]. exists gnewsStory. split; [reflexivity | discriminate]. }
  assert (wellShapedGuardian rejected) as H2 by exact I.
  split; [exact (conj H0 (conj H1 H2)) |].
  destruct (fetchAllNews_keeps_delivered newsApiOk gnewsOk rejected H0 H1 H2)
    as (combined & merged & Hcombined & Hmerged & Hkeeps).
  exists merged. split; [exact Hmerged |].
  apply (Hkeeps gnewsArticle gnewsStory_delivered).
  injection Hcombined as <-. reflexivity.
Defined.

(** ** Search filter *)

Lemma append_empty_l s : "" +:+ s = s.
Proof. reflexivity. Qed.

Lemma append_String c s1 s2 : String c s1 +:+ s2 = String c (s1 +:+ s2).
Proof. reflexivity. Qed.

Lemma startsWith_spec s q :
  startsWith s q = true ↔ ∃ post, s = q +:+ post.
Proof.
  revert s. induction q as [|c q IH]; intros s; cbn [startsWith].
  - split; [intros _; exists s; reflexivity | done].
  - destruct s as [|d s].
    + split; [done |]. intros [post Heq]. rewrite append_String in Heq. done.
    + case_decide as Hcd.
      * subst d. rewrite IH. split.
        -- intros [post ->]. exists post. reflexivity.
        -- intros [post Heq]. rewrite append_String in Heq.
           injection Heq as ->. by exists post.
      * split; [done |]. intros [post Heq]. rewrite append_String in Heq.
        injection Heq as -> _. done.
Qed.

(** [includes] finds exactly the substrings. *)
Lemma includes_spec s q :
  includes s q = true ↔ ∃ pre post, s = pre +:+ q +:+ post.
Proof.
  induction s as [|d s IH]; cbn [includes]; rewrite orb_true_iff, startsWith_spec.
  - split.
    + intros [[post ->]|[=]]. exists "", post. reflexivity.
    + intros ([|??] & post & Heq).
      * left. exists post. by rewrite append_empty_l in Heq.
      * rewrite append_String in Heq. done.
  - rewrite IH. split.
    + intros [[post ->]|(pre & post & ->)].
      * exists "", post. reflexivity.
      * exists (String d pre), post. reflexivity.
    + intros ([|c pre] & post & Heq).
      * left. exists post. by rewrite append_empty_l in Heq.
      * right. rewrite append_String in Heq. injection Heq as -> ->.
        by exists pre, post.
Qed.

Lemma matchesQuery_spec searchQuery article :
  matchesQuery searchQuery article = true ↔ lowerContains searchQuery article.
Proof. apply includes_spec. Qed.

Lemma matchesQuery_empty article : matchesQuery "" article = true.
Proof.
  apply matchesQuery_spec. exists "", (toLowerCase (title article)). reflexivity.
Qed.

Lemma filter_all {A} (P : A → Prop) `{∀ x, Decision (P x)} (l : list A) :
  (∀ x, P x) → filter P l = l.
Proof.
  intros HP. induction l as [|x l IH]; [done |].
  by rewrite filter_cons_True, IH.
Qed.

(** C4: the filtered list is the selected list (bookmarks or all news)
    restricted, in order, to the articles whose lowercased title contains
    the lowercased query, however that property is decided; with an empty
    query nothing is dropped. *)
Theorem filteredArticles_spec (showBookmarks : bool)
    (bookmarks articles : list Article) (searchQuery : string)
    (dec : ∀ article, Decision (lowerContains searchQuery article)) :
  let selected := if showBookmarks then bookmarks else articles in
  filteredArticles showBookmarks bookmarks articles searchQuery
    = filter (lowerContains searchQuery) selected ∧
  filteredArticles showBookmarks bookmarks articles searchQuery `sublist_of` selected ∧
  (∀ a, a ∈ filteredArticles showBookmarks bookmarks articles searchQuery ↔
        a ∈ selected ∧ lowerContains searchQuery a) ∧
  filteredArticles showBookmarks bookmarks articles "" = selected.
Proof.
  assert (∀ l : list Article,
            filter (λ article, matchesQuery searchQuery article = true) l
               = filter (lowerContains searchQuery) l) as Hfilter.
  { intros l. apply list_filter_iff. intros a. apply matchesQuery_spec. }
  cbn. unfold filteredArticles. split_and!.
  - destruct showBookmarks; apply Hfilter.
  - destruct showBookmarks; apply sublist_filter.
  - intros a. rewrite <-matchesQuery_spec.
    destruct showBookmarks; rewrite list_elem_of_filter; tauto.
  - destruct showBookmarks; apply filter_all, matchesQuery_empty.
Qed.

(** ** Pagination *)

Lemma Qceiling_div (a n : Z) :
  (0 < n)%Z → Qceiling (inject_Z a / inject_Z n) = (- ((- a) / n))%Z.
Proof.
  intros Hn. destruct n as [|p|p]; try lia.
  unfold Qceiling, Qfloor, Qdiv, Qmult, Qinv, Qopp, inject_Z. cbn.
  by rewrite Z.mul_1_r.
Qed.

(** [totalPages] is the least number of pages of [itemsPerPage] articles
    that hold the whole list. *)
Lemma totalPages_bounds (l : list Article) (n : Z) :
  (0 < n)%Z →
  ((totalPages l n - 1) * n < Z.of_nat (length l) ≤ totalPages l n * n)%Z.
Proof.
  intros Hn. unfold totalPages. rewrite Qceiling_div by done.
  pose proof (Z.div_mod (- Z.of_nat (length l)) n ltac:(lia)).
  pose proof (Z.mod_pos_bound (- Z.of_nat (length l)) n Hn). nia.
Qed.

Lemma totalPages_nonneg (l : list Article) (n : Z) :
  (0 < n)%Z → (0 ≤ totalPages l n)%Z.
Proof. intros Hn. pose proof (totalPages_bounds l n Hn). nia. Qed.

(** With indices that are not negative, [slice] is a [take] of a [drop]. *)
Lemma slice_take_drop {A} (l : list A) (start count : Z) :
  (0 ≤ start)%Z → (0 ≤ count)%Z →
  slice l start (start + count) = take (Z.to_nat count) (drop (Z.to_nat start) l).
Proof.
  intros Hstart Hcount. unfold slice.
  rewrite !decide_False by lia.
  destruct (decide (Z.of_nat (length l) ≤ start)%Z) as [Hout|Hin].
  - rewrite (drop_ge l (Z.to_nat start)) by lia.
    rewrite (Z.min_r start) by lia. by rewrite Nat2Z.id, drop_all, !take_nil.
  - rewrite (Z.min_l start) by lia.
    destruct (decide (start + count ≤ Z.of_nat (length l))%Z).
    + rewrite Z.min_l by lia. do 2 f_equal. lia.
    + rewrite Z.min_r by lia.
      rewrite !take_ge; [done | rewrite length_drop; lia..].
Qed.

Lemma currentArticles_take_drop (l : list Article) (p n : Z) :
  (0 < n)%Z → (1 ≤ p)%Z →
  currentArticles l p n = take (Z.to_nat n) (drop (Z.to_nat ((p - 1) * n)) l).
Proof.
  intros Hn Hp. unfold currentArticles, startIndex.
  apply slice_take_drop; nia.
Qed.

(** The first [k] pages, one after the other, are the first [k * n]
    articles. *)
Lemma concat_currentArticles (l : list Article) (n : Z) (k : nat) :
  (0 < n)%Z →
  concat ((λ p, currentArticles l p n) <$> seqZ 1 (Z.of_nat k))
  = take (Z.to_nat (Z.of_nat k * n)) l.
Proof.
  intros Hn. induction k as [|k IH]; [done |].
  rewrite seqZ_S, fmap_app, concat_app, IH. cbn [fmap list_fmap concat].
  rewrite app_nil_r, currentArticles_take_drop by lia.
  replace (1 + Z.of_nat k - 1)%Z with (Z.of_nat k) by lia.
  rewrite take_take_drop. f_equal. nia.
Qed.

Example totalPages_7_by_3 :
  totalPages [dated; older; dated; older; dated; older; dated] 3 = 3%Z.
Proof. reflexivity. Qed.

Example currentArticles_last_page :
  currentArticles [dated; older; dated; older; dated; older; undated] 3 3 = [undated].
Proof. reflexivity. Qed.

(** Below page 1 the start index is negative and [slice] counts it from the
    end of the array; [run_currentPage] shows that no state gets there. *)
Example currentArticles_page_minus_1 :
  currentArticles [dated; older; undated] (-1) 1 = [older].
Proof. reflexivity. Qed.

(** C5: [totalPages] is the ceiling of length over [itemsPerPage]; the page
    shown is the run of at most [itemsPerPage] articles that starts at index
    [(currentPage - 1) * itemsPerPage]; and pages 1 to [totalPages], in
    order, make up the filtered list. *)
Theorem pagination_spec (filtered : list Article) (itemsPerPage currentPage : Z) :
  (0 < itemsPerPage)%Z → (1 ≤ currentPage)%Z →
  ((totalPages filtered itemsPerPage - 1) * itemsPerPage
     < Z.of_nat (length filtered)
     ≤ totalPages filtered itemsPerPage * itemsPerPage)%Z ∧
  currentArticles filtered currentPage itemsPerPage
    = take (Z.to_nat itemsPerPage)
           (drop (Z.to_nat ((currentPage - 1) * itemsPerPage)) filtered) ∧
  (∀ i : nat,
     currentArticles filtered currentPage itemsPerPage !! i
     = if decide (Z.of_nat i < itemsPerPage)%Z
       then filtered !! Z.to_nat ((currentPage - 1) * itemsPerPage + Z.of_nat i)
       else None) ∧
  (Z.of_nat (length (currentArticles filtered currentPage itemsPerPage))
     ≤ itemsPerPage)%Z ∧
  concat ((λ p, currentArticles filtered p itemsPerPage)
            <$> seqZ 1 (totalPages filtered itemsPerPage)) = filtered.
Proof.
  intros Hn Hp.
  pose proof (totalPages_bounds filtered itemsPerPage Hn) as Hbounds.
  pose proof (totalPages_nonneg filtered itemsPerPage Hn) as Hnonneg.
  split; [exact Hbounds |]. split_and!.
  - by apply currentArticles_take_drop.
  - intros i. rewrite currentArticles_take_drop by done.
    case_decide.
    + rewrite lookup_take_lt, lookup_drop by lia. f_equal. nia.
    + apply lookup_take_ge. lia.
  - rewrite currentArticles_take_drop, length_take by done. lia.
  - rewrite <-(Z2Nat.id (totalPages filtered itemsPerPage)) by done.
    rewrite concat_currentArticles by done.
    apply take_ge. rewrite Z2Nat.id by done. lia.
Qed.

Lemma pagination_spec_witness :
  (0 < 2)%Z ∧ (1 ≤ 2)%Z ∧
  currentArticles [dated; undated; older] 2 2 = [older] ∧
  totalPages [dated; undated; older] 2 = 2%Z.
Proof.
  pose proof (pagination_spec [dated; undated; older] 2 2
                ltac:(lia) ltac:(lia)) as (Hceil & Hslice & _).
  split_and!; [lia | lia | exact Hslice |].
  cbn in Hceil. lia.
Defined.

(** ** Bookmarks *)

Lemma some_same_id (prev : list Article) (articleId : string) :
  Exists (λ bookmark, id bookmark = articleId) prev ↔ articleId ∈ id <$> prev.
Proof.
  rewrite Exists_exists, list_elem_of_fmap. split.
  - intros (b & ? & <-). by exists b.
  - intros (b & -> & ?). by exists b.
Qed.

Lemma addBookmark_new now article prev :
  id article ∉ id <$> prev →
  addBookmark now article prev = prev ++ [withBookmarkedAt article now].
Proof.
  intros Hnew. unfold addBookmark.
  rewrite bool_decide_eq_false_2; [done |]. by rewrite some_same_id.
Qed.

Lemma addBookmark_present now article prev :
  id article ∈ id <$> prev → addBookmark now article prev = prev.
Proof.
  intros Hin. unfold addBookmark.
  rewrite bool_decide_eq_true_2; [done |]. by rewrite some_same_id.
Qed.

Lemma removeBookmark_absent articleId prev :
  articleId ∉ id <$> prev → removeBookmark articleId prev = prev.
Proof.
  intros Hnew. unfold removeBookmark.
  induction prev as [|b prev IH]; [done |].
  rewrite fmap_cons, not_elem_of_cons in Hnew. destruct Hnew as [Hb Hprev].
  rewrite filter_cons_True by done. by rewrite IH.
Qed.

Lemma removeBookmark_app articleId l1 l2 :
  removeBookmark articleId (l1 ++ l2)
  = removeBookmark articleId l1 ++ removeBookmark articleId l2.
Proof. apply filter_app. Qed.

Lemma removeBookmark_ids articleId prev :
  id <$> removeBookmark articleId prev = filter (λ i, i ≠ articleId) (id <$> prev).
Proof. unfold removeBookmark. by rewrite filter_fmap. Qed.

Lemma addBookmark_NoDup now article prev :
  NoDup (id <$> prev) → NoDup (id <$> addBookmark now article prev).
Proof.
  intros Hnd. destruct (decide (id article ∈ id <$> prev)) as [Hin|Hnew].
  - by rewrite addBookmark_present.
  - rewrite addBookmark_new, fmap_app by done.
    apply NoDup_app. split_and!; [done | | apply NoDup_singleton].
    intros i Hi ->%list_elem_of_singleton. done.
Qed.

Lemma removeBookmark_NoDup articleId prev :
  NoDup (id <$> prev) → NoDup (id <$> removeBookmark articleId prev).
Proof. intros Hnd. rewrite removeBookmark_ids. by apply NoDup_filter. Qed.

(** C6: the added record carries every field of the article and the
    timestamp; it is appended when no bookmark has the article's id, and
    otherwise the list is returned as it is. *)
Theorem addBookmark_spec (now : string) (article : Article) (prev : list Article) :
  let added := withBookmarkedAt article now in
  (id added = id article ∧ title added = title article ∧
   url added = url article ∧ imageUrl added = imageUrl article ∧
   source added = source article ∧ publishedAt added = publishedAt article ∧
   apiSource added = apiSource article ∧ bookmarkedAt added = Some now) ∧
  addBookmark now article prev
    = if decide (id article ∈ id <$> prev) then prev else prev ++ [added].
Proof.
  split; [done |]. case_decide.
  - by apply addBookmark_present.
  - by apply addBookmark_new.
Qed.

(** C8: on a list without the article's id, adding the article and then
    removing its id gives the list back. *)
Theorem removeBookmark_addBookmark (now : string) (article : Article)
    (prev : list Article) :
  id article ∉ id <$> prev →
  removeBookmark (id article) (addBookmark now article prev) = prev.
Proof.
  intros Hnew. rewrite addBookmark_new, removeBookmark_app by done.
  rewrite removeBookmark_absent by done.
  unfold removeBookmark. rewrite filter_cons_False, filter_nil; [|by intros []].
  apply app_nil_r.
Qed.

Lemma removeBookmark_addBookmark_witness :
  (id older ∉ id <$> [withBookmarkedAt dated "2024-01-01T00:00:00.000Z"]) ∧
  removeBookmark (id older)
    (addBookmark "2024-01-02T00:00:00.000Z" older
       [withBookmarkedAt dated "2024-01-01T00:00:00.000Z"])
  = [withBookmarkedAt dated "2024-01-01T00:00:00.000Z"].
Proof.
  assert (id older ∉ id <$> [withBookmarkedAt dated "2024-01-01T00:00:00.000Z"])
    as Hnew.
  { by intros [=]%list_elem_of_singleton. }
  split; [exact Hnew |].
  exact (removeBookmark_addBookmark _ _ _ Hnew).
Defined.

(** C9: bookmark ids stay pairwise distinct under [addBookmark],
    [removeBookmark] and [clearAllBookmarks]. *)
Theorem bookmarks_ids_NoDup (now : string) (article : Article)
    (articleId : string) (prev : list Article) :
  NoDup (id <$> prev) →
  NoDup (id <$> addBookmark now article prev) ∧
  NoDup (id <$> removeBookmark articleId prev) ∧
  NoDup (id <$> clearAllBookmarks prev).
Proof.
  intros Hnd. split_and!.
  - by apply addBookmark_NoDup.
  - by apply removeBookmark_NoDup.
  - apply NoDup_nil_2.
Qed.

Lemma bookmarks_ids_NoDup_witness :
  NoDup (id <$> [dated; older]) ∧
  NoDup (id <$> addBookmark "2024-01-02T00:00:00.000Z" undated [dated; older]) ∧
  NoDup (id <$> removeBookmark (id dated) [dated; older]) ∧
  NoDup (id <$> clearAllBookmarks [dated; older]).
Proof.
  assert (NoDup (id <$> [dated; older])) as Hnd.
  { apply NoDup_cons. split; [|apply NoDup_singleton].
    by intros [=]%list_elem_of_singleton. }
  split; [exact Hnd |].
  exact (bookmarks_ids_NoDup _ undated (id dated) _ Hnd).
Defined.

(** ** Theme *)

(** C7: on the pair light/dark the toggle yields the other value, and
    toggling twice yields the value it started from; the same holds for the
    boolean dark-mode flag. *)
Theorem toggle_involution (theme : string) (darkMode : bool) :
  theme = "light" ∨ theme = "dark" →
  (toggleTheme theme = "light" ∨ toggleTheme theme = "dark") ∧
  toggleTheme theme ≠ theme ∧
  toggleTheme (toggleTheme theme) = theme ∧
  toggleDarkMode darkMode ≠ darkMode ∧
  toggleDarkMode (toggleDarkMode darkMode) = darkMode.
Proof.
  intros [-> | ->]; (split_and!; [by (left + right) | done | done | |]);
    by destruct darkMode.
Qed.

Lemma toggle_involution_witness :
  ("dark" = "light" ∨ "dark" = "dark") ∧
  toggleTheme "dark" = "light" ∧
  toggleTheme (toggleTheme "dark") = "dark" ∧
  toggleDarkMode (toggleDarkMode true) = true.
Proof.
  assert ("dark" = "light" ∨ "dark" = "dark") as Hpair by (right; reflexivity).
  pose proof (toggle_involution "dark" true Hpair) as (_ & _ & Htwice & _ & Hflag).
  split_and!; [exact Hpair | reflexivity | exact Htwice | exact Hflag].
Defined.

(** ** Page navigation *)

(** C10: [goToPage] stores the requested page when it lies between 1 and
    [totalPages], and leaves the current page alone otherwise, in particular
    whenever there are no pages. *)
Theorem goToPage_spec (totalPages currentPage page : Z) :
  ((1 ≤ page ≤ totalPages)%Z → goToPage totalPages currentPage page = page) ∧
  (¬ (1 ≤ page ≤ totalPages)%Z → goToPage totalPages currentPage page = currentPage) ∧
  (goToPage totalPages currentPage page ≠ currentPage → (1 ≤ page ≤ totalPages)%Z) ∧
  goToPage 0 currentPage page = currentPage.
Proof.
  unfold goToPage. split_and!.
  - intros [??]. by rewrite !bool_decide_eq_true_2.
  - intros Hout. do 2 case_bool_decide; cbn; first [done | lia].
  - do 2 case_bool_decide; cbn; intros; first [done | lia].
  - do 2 case_bool_decide; cbn; first [done | lia].
Qed.

Lemma goToPage_spec_witness :
  (1 ≤ 2 ≤ 3)%Z ∧ goToPage 3 1 2 = 2%Z ∧
  ¬ (1 ≤ 4 ≤ 3)%Z ∧ goToPage 3 1 4 = 1%Z.
Proof.
  pose proof (goToPage_spec 3 1 2) as (Hin & _).
  pose proof (goToPage_spec 3 1 4) as (_ & Hout & _).
  split_and!; [lia | lia | apply Hin; lia | lia | apply Hout; lia].
Defined.

(** ** Reachable states *)

Lemma resetPageIfChanged_currentPage old new :
  (1 ≤ st_currentPage new)%Z → (1 ≤ st_currentPage (resetPageIfChanged old new))%Z.
Proof. unfold resetPageIfChanged. by case_bool_decide. Qed.

Lemma resetPageIfChanged_bookmarks old new :
  st_bookmarks (resetPageIfChanged old new) = st_bookmarks new.
Proof. unfold resetPageIfChanged. by case_bool_decide. Qed.

Lemma goToPage_ge_1 totalPages currentPage page :
  (1 ≤ currentPage)%Z → (1 ≤ goToPage totalPages currentPage page)%Z.
Proof. unfold goToPage. intros ?. do 2 case_bool_decide; cbn; lia. Qed.

(** The current page never drops below 1. *)
Lemma step_currentPage st ev :
  (1 ≤ st_currentPage st)%Z → (1 ≤ st_currentPage (step st ev))%Z.
Proof.
  intros Hst. destruct ev; cbn; try done.
  - by destruct (fetchAllNews r0 r1 r2).
  - by apply resetPageIfChanged_currentPage.
  - by apply resetPageIfChanged_currentPage.
  - by apply resetPageIfChanged_currentPage.
  - by apply goToPage_ge_1.
Qed.

Lemma run_currentPage st evs :
  (1 ≤ st_currentPage st)%Z → (1 ≤ st_currentPage (run st evs))%Z.
Proof.
  revert st. induction evs as [|ev evs IH]; intros st Hst; [done |].
  apply IH. by apply step_currentPage.
Qed.

Lemma step_bookmarks_NoDup st ev :
  NoDup (id <$> st_bookmarks st) → NoDup (id <$> st_bookmarks (step st ev)).
Proof.
  intros Hst. destruct ev; cbn; rewrite ?resetPageIfChanged_bookmarks; try done.
  - by destruct (fetchAllNews r0 r1 r2).
  - by apply addBookmark_NoDup.
  - by apply removeBookmark_NoDup.
  - apply NoDup_nil_2.
Qed.

Lemma run_bookmarks_NoDup st evs :
  NoDup (id <$> st_bookmarks st) → NoDup (id <$> st_bookmarks (run st evs)).
Proof.
  revert st. induction evs as [|ev evs IH]; intros st Hst; [done |].
  apply IH. by apply step_bookmarks_NoDup.
Qed.

(** In every state the component reaches, the page shown is the run of
    [itemsPerPage] articles that starts at [(currentPage - 1) * itemsPerPage]. *)
Lemma reachable_currentArticles savedBookmarks savedDarkMode evs :
  let st := run (initialState savedBookmarks savedDarkMode) evs in
  (0 < st_itemsPerPage st)%Z →
  st_currentArticles st
  = take (Z.to_nat (st_itemsPerPage st))
         (drop (Z.to_nat ((st_currentPage st - 1) * st_itemsPerPage st))
               (st_filteredArticles st)).
Proof.
  intros st Hn. apply currentArticles_take_drop; [done |].
  by apply run_currentPage.
Qed.

(** * Further properties *)

(** ** The merged result *)

Lemma elem_of_uniqueArticles_combined combined a :
  a ∈ uniqueArticles combined → a ∈ combined.
Proof.
  intros Hlast%elem_of_uniqueArticles.
  by apply last_Some_elem_of, list_elem_of_filter in Hlast as [_ ?].
Qed.

Lemma uniqueArticles_NoDup combined : NoDup (id <$> uniqueArticles combined).
Proof. rewrite uniqueArticles_keys. apply of_entries_NoDup. Qed.

Lemma uniqueArticles_nil combined : uniqueArticles combined = [] ↔ combined = [].
Proof.
  split; [|by intros ->].
  destruct combined as [|x combined]; [done |]. intros Hnil.
  destruct (uniqueArticles_covers_ids (x :: combined) x) as (a & Ha & _);
    [by left |].
  rewrite Hnil in Ha. by apply elem_of_nil in Ha.
Qed.

Lemma sort_nil {A} (comparefn : A → A → number) l :
  sort comparefn l = [] ↔ l = [].
Proof.
  split; [|by intros ->]. intros Hnil.
  apply Permutation_nil_r. by rewrite <-Hnil, sort_Permutation.
Qed.

Lemma fetchAllNews_ids_NoDup_aux r0 r1 r2 merged :
  fetchAllNews r0 r1 r2 = Some merged → NoDup (id <$> merged).
Proof.
  intros (combined & _ & ->)%fetchAllNews_Some.
  rewrite sort_Permutation. apply uniqueArticles_NoDup.
Qed.

(** X1: whatever the three requests returned, the ids of the list that
    [fetchAllNews] hands to [setArticles] are pairwise distinct. *)
Theorem fetchAllNews_ids_NoDup r0 r1 r2 (merged : list Article) :
  fetchAllNews r0 r1 r2 = Some merged → NoDup (id <$> merged).
Proof. apply fetchAllNews_ids_NoDup_aux. Qed.

Lemma fetchAllNews_ids_NoDup_witness :
  fetchAllNews newsApiOk gnewsOk rejected = Some [gnewsArticle] ∧
  NoDup (id <$> [gnewsArticle]).
Proof.
  split; [reflexivity |].
  exact (fetchAllNews_ids_NoDup newsApiOk gnewsOk rejected _ eq_refl).
Defined.

(** X2: [fetchAllNews] hands a list to [setArticles] exactly when every
    outcome is well shaped (on any other outcome a TypeError ends it
    first), and that list is empty exactly when no source delivered an
    article. *)
Theorem fetchAllNews_nil_iff r0 r1 r2 :
  (is_Some (fetchAllNews r0 r1 r2) ↔
   wellShapedNewsAPI r0 ∧ wellShapedGNews r1 ∧ wellShapedGuardian r2) ∧
  (fetchAllNews r0 r1 r2 = Some [] ↔
   (wellShapedNewsAPI r0 ∧ wellShapedGNews r1 ∧ wellShapedGuardian r2) ∧
   ∀ a, ¬ deliveredBy r0 r1 r2 a).
Proof.
  split; [apply fetchAllNews_is_Some |]. split.
  - intros Hnil. split; [apply fetchAllNews_is_Some; by eexists |].
    apply fetchAllNews_Some in Hnil as (combined & Hcombined & Hsort).
    symmetry in Hsort. apply sort_nil, uniqueArticles_nil in Hsort as ->.
    intros a Ha%(elem_of_combinedArticles _ _ _ _ _ Hcombined).
    by apply elem_of_nil in Ha.
  - intros [[merged Hmerged]%fetchAllNews_is_Some Hnone].
    pose proof Hmerged as (combined & Hcombined & ->)%fetchAllNews_Some.
    rewrite Hmerged. f_equal. apply sort_nil, uniqueArticles_nil.
    destruct combined as [|a l]; [done |].
    destruct (Hnone a). apply (elem_of_combinedArticles _ _ _ _ _ Hcombined).
    by left.
Qed.

Lemma delivered_apiSource r0 r1 r2 a :
  deliveredBy r0 r1 r2 a →
  (apiSource a = "NewsAPI" ∨ apiSource a = "GNews" ∨ apiSource a = "The Guardian") ∧
  bookmarkedAt a = None.
Proof.
  intros [(? & ? & [|x] & _ & _ & _ & Ha)|[(? & ? & [|x] & _ & _ & _ & Ha)|
          (? & ? & ? & [|x] & _ & _ & _ & _ & Ha)]]; cbn in Ha; try done.
  - destruct (NewsAPI.source x); [done |]. injection Ha as <-. cbn. auto.
  - destruct (GNews.source x); [done |]. injection Ha as <-. cbn. auto.
  - injection Ha as <-. cbn. auto.
Qed.

(** X3: every article of the list that [fetchAllNews] hands to
    [setArticles] carries the tag of one of the three APIs and no bookmark
    date, so its badge never gets the fallback colour of
    [getApiSourceColor]. *)
Theorem fetchAllNews_apiSource r0 r1 r2 (merged : list Article) (a : Article) :
  fetchAllNews r0 r1 r2 = Some merged → a ∈ merged →
  (apiSource a = "NewsAPI" ∨ apiSource a = "GNews" ∨ apiSource a = "The Guardian") ∧
  bookmarkedAt a = None ∧
  getApiSourceColor (apiSource a) ≠ "bg-gray-500".
Proof.
  intros (combined & Hcombined & ->)%fetchAllNews_Some. rewrite sort_Permutation.
  intros Ha%elem_of_uniqueArticles_combined.
  apply (elem_of_combinedArticles _ _ _ _ _ Hcombined) in Ha.
  destruct (delivered_apiSource _ _ _ _ Ha) as [Hsrc Hbm].
  split_and!; [done | done |].
  by destruct Hsrc as [-> | [-> | ->]].
Qed.

Lemma fetchAllNews_apiSource_witness :
  fetchAllNews newsApiOk gnewsOk rejected = Some [gnewsArticle] ∧
  gnewsArticle ∈ [gnewsArticle] ∧
  getApiSourceColor (apiSource gnewsArticle) ≠ "bg-gray-500".
Proof.
  assert (gnewsArticle ∈ [gnewsArticle]) as Hin by (by left).
  split; [reflexivity |]. split; [exact Hin |].
  exact (proj2 (proj2 (fetchAllNews_apiSource newsApiOk gnewsOk rejected
                         _ _ eq_refl Hin))).
Defined.

(** ** More on deduplication *)

Section jsmap_more.
Context {K V : Type} `{EqDecision K}.
Import JSMap.

Lemma set_fresh (m : list (K * V)) k v :
  k ∉ m.*1 → set m k v = m ++ [(k, v)].
Proof.
  induction m as [|[k' v'] m IH]; [done |].
  rewrite fmap_cons, not_elem_of_cons. cbn. intros [Hne Hm].
  rewrite decide_False by done. by rewrite IH.
Qed.

Lemma of_entries_NoDup_id (es : list (K * V)) :
  NoDup es.*1 → of_entries es = es.
Proof.
  induction es as [|e es IH] using rev_ind; [done |].
  rewrite fmap_app, NoDup_app. intros (Hes & Hfresh & _).
  rewrite of_entries_snoc, IH by done.
  destruct e as [k v]. apply set_fresh. intros Hk.
  apply (Hfresh k Hk). by left.
Qed.

(** The keys of [new Map(entries)], in iteration order: each key where it
    first occurs in [entries]. *)
Lemma of_entries_keys (es : list (K * V)) :
  (of_entries es).*1 = reverse (remove_dups (reverse es.*1)).
Proof.
  induction es as [|e es IH] using rev_ind; [done |].
  rewrite of_entries_snoc, set_keys, IH, fmap_app, reverse_app.
  change ([e].*1) with [e.1]. rewrite reverse_singleton.
  change ([e.1] ++ reverse es.*1) with (e.1 :: reverse es.*1).
  cbn [remove_dups].
  destruct (decide (e.1 ∈ reverse (remove_dups (reverse es.*1)))) as [Hin|Hin];
    rewrite elem_of_reverse, elem_of_remove_dups in Hin.
  - destruct (decide_rel (∈) e.1 (reverse es.*1)); done.
  - destruct (decide_rel (∈) e.1 (reverse es.*1)); [done |].
    by rewrite reverse_cons.
Qed.
End jsmap_more.

Lemma entriesOf_keys combined : (entriesOf combined).*1 = id <$> combined.
Proof. unfold entriesOf. rewrite <-list_fmap_compose. done. Qed.

Lemma entriesOf_values combined : (entriesOf combined).*2 = combined.
Proof.
  unfold entriesOf. rewrite <-list_fmap_compose. apply list_fmap_id.
Qed.

Lemma uniqueArticles_distinct combined :
  NoDup (id <$> combined) → uniqueArticles combined = combined.
Proof.
  intros Hnd. unfold uniqueArticles, JSMap.values.
  rewrite of_entries_NoDup_id by by rewrite entriesOf_keys.
  apply entriesOf_values.
Qed.

(** X4: on a list whose ids are already pairwise distinct, deduplication
    changes nothing, not even the order. *)
Theorem uniqueArticles_NoDup_id (combined : list Article) :
  NoDup (id <$> combined) → uniqueArticles combined = combined.
Proof. apply uniqueArticles_distinct. Qed.

Lemma uniqueArticles_NoDup_id_witness :
  NoDup (id <$> [dated; older]) ∧ uniqueArticles [dated; older] = [dated; older].
Proof.
  assert (NoDup (id <$> [dated; older])) as Hnd.
  { apply NoDup_cons. split; [|apply NoDup_singleton].
    by intros [=]%list_elem_of_singleton. }
  split; [exact Hnd | exact (uniqueArticles_NoDup_id _ Hnd)].
Defined.

(** X5: deduplicating twice is the same as deduplicating once. *)
Theorem uniqueArticles_idempotent (combined : list Article) :
  uniqueArticles (uniqueArticles combined) = uniqueArticles combined.
Proof. apply uniqueArticles_distinct, uniqueArticles_NoDup. Qed.

(** X6: the deduplicated list keeps one slot per id, in the order in which
    the ids first occur in the concatenation (the record in the slot is
    the last one with that id). *)
Theorem uniqueArticles_first_occurrence_order (combined : list Article) :
  id <$> uniqueArticles combined
  = reverse (remove_dups (reverse (id <$> combined))).
Proof. by rewrite uniqueArticles_keys, of_entries_keys, entriesOf_keys. Qed.

(** ** More on sorting *)

Lemma not_inOrder_byDateDesc a b :
  ¬ inOrder byDateDesc a b → publishedAt a ≠ publishedAt b.
Proof.
  unfold inOrder, SortCompare, byDateDesc. intros Hgt Heq. apply Hgt.
  rewrite Heq. destruct (publishedAt b); cbn; lia.
Qed.

Lemma insert_filter_date t x l :
  filter (λ a, publishedAt a = t) (insert byDateDesc x l)
  = filter (λ a, publishedAt a = t) (x :: l).
Proof.
  induction l as [|y l IH]; [done |]. cbn [insert].
  case_decide as Hxy; [done |]. apply not_inOrder_byDateDesc in Hxy.
  rewrite (filter_cons _ y), IH, !(filter_cons _ x), (filter_cons _ y).
  repeat case_decide; congruence.
Qed.

Lemma sort_filter_date t l :
  filter (λ a, publishedAt a = t) (sort byDateDesc l)
  = filter (λ a, publishedAt a = t) l.
Proof.
  induction l as [|x l IH]; [done |].
  rewrite sort_cons, insert_filter_date, !(filter_cons _ x), IH. done.
Qed.

(** X7: the sort is stable: with valid dates (the case in which the
    comparator is a consistent ordering), the articles that share a
    publication time come out in the order they went in. *)
Theorem sort_byDateDesc_stable (l : list Article) (t : timeValue) :
  Forall validDate l →
  filter (λ a, publishedAt a = t) (sort byDateDesc l)
  = filter (λ a, publishedAt a = t) l.
Proof. intros _. apply sort_filter_date. Qed.

Lemma sort_byDateDesc_stable_witness :
  Forall validDate [older; dated; datedAgain] ∧
  filter (λ a, publishedAt a = Millis 1700000000000)
         (sort byDateDesc [older; dated; datedAgain])
  = [dated; datedAgain].
Proof.
  assert (Forall validDate [older; dated; datedAgain]) as Hvalid
    by (repeat constructor; done).
  split; [exact Hvalid |].
  exact (sort_byDateDesc_stable _ (Millis 1700000000000) Hvalid).
Defined.

Lemma insert_undated x l :
  publishedAt x = InvalidDate → insert byDateDesc x l = x :: l.
Proof.
  intros Hx. destruct l as [|y l]; [done |]. cbn [insert].
  rewrite decide_True; [done |].
  unfold inOrder, SortCompare, byDateDesc. rewrite Hx.
  by destruct (publishedAt y).
Qed.

(** X8: when no article has a valid date every comparison is NaN, and the
    sort returns the list in the order it was given. *)
Theorem sort_byDateDesc_all_undated (l : list Article) :
  Forall (λ a, publishedAt a = InvalidDate) l → sort byDateDesc l = l.
Proof.
  induction 1 as [|x l Hx Hl IH]; [done |].
  by rewrite sort_cons, IH, insert_undated.
Qed.

Lemma sort_byDateDesc_all_undated_witness :
  Forall (λ a, publishedAt a = InvalidDate) [undatedToo; undated] ∧
  undatedToo ≠ undated ∧
  sort byDateDesc [undatedToo; undated] = [undatedToo; undated].
Proof.
  assert (Forall (λ a, publishedAt a = InvalidDate) [undatedToo; undated]) as Hall
    by (repeat constructor).
  split; [exact Hall |]. split; [discriminate |].
  exact (sort_byDateDesc_all_undated _ Hall).
Defined.

Lemma sortedByDateDesc_cons_inv x l :
  sortedByDateDesc (x :: l) → sortedByDateDesc l.
Proof. intros Hdesc i a b Ha Hb. by apply (Hdesc (S i) a b). Qed.

Lemma sort_descending_id l :
  Forall validDate l → sortedByDateDesc l → sort byDateDesc l = l.
Proof.
  induction 1 as [|x l Hx Hl IH]; intros Hdesc; [done |].
  rewrite sort_cons, IH by by eapply sortedByDateDesc_cons_inv.
  destruct l as [|y l]; [done |]. cbn [insert].
  rewrite decide_True; [done |].
  apply byDateDesc_valid; [done | by apply Forall_cons in Hl as [? _] |].
  by apply (Hdesc 0%nat).
Qed.

Lemma sort_byDateDesc_sorted l :
  Forall validDate l → sortedByDateDesc (sort byDateDesc l).
Proof.
  intros Hvalid i a b Ha Hb.
  assert (Forall validDate (sort byDateDesc l)) as Hvalid'
    by by rewrite sort_Permutation.
  apply byDateDesc_valid; [by eapply Forall_lookup_1..|].
  eapply Sorted_adjacent; [|done..].
  apply (sort_Sorted _ validDate); [|done].
  intros x y Hx Hy. rewrite !byDateDesc_valid by done.
  unfold validDate in *. destruct (publishedAt x), (publishedAt y); try done.
  cbn. rewrite !bool_decide_eq_true. lia.
Qed.

(** X9: a list with valid dates that is already in descending order is
    returned as it is; in particular sorting twice changes nothing more. *)
Theorem sort_byDateDesc_fixpoint (l : list Article) :
  Forall validDate l →
  (sortedByDateDesc l → sort byDateDesc l = l) ∧
  sort byDateDesc (sort byDateDesc l) = sort byDateDesc l.
Proof.
  intros Hvalid. split; [by apply sort_descending_id |].
  apply sort_descending_id.
  - by rewrite sort_Permutation.
  - by apply sort_byDateDesc_sorted.
Qed.

Lemma sort_byDateDesc_fixpoint_witness :
  Forall validDate [dated; older] ∧ sortedByDateDesc [dated; older] ∧
  sort byDateDesc [dated; older] = [dated; older].
Proof.
  assert (Forall validDate [dated; older]) as Hvalid
    by (repeat constructor; done).
  assert (sortedByDateDesc [dated; older]) as Hdesc.
  { intros [|[|i]] a b Ha Hb; by simplify_eq/=. }
  split_and!; [exact Hvalid | exact Hdesc |].
  exact (proj1 (sort_byDateDesc_fixpoint _ Hvalid) Hdesc).
Defined.

Lemma ge_valueOf_refl a : validDate a →
  ge (valueOf (publishedAt a)) (valueOf (publishedAt a)) = true.
Proof.
  unfold validDate. destruct (publishedAt a); [|done]. intros _. cbn.
  by apply bool_decide_eq_true.
Qed.

Lemma ge_trans x y z : ge x y = true → ge y z = true → ge x z = true.
Proof.
  destruct x, y, z; cbn; try done. rewrite !bool_decide_eq_true. lia.
Qed.

Lemma sortedByDateDesc_all_pairs l i k a b :
  Forall validDate l → sortedByDateDesc l →
  l !! i = Some a → l !! (i + k)%nat = Some b →
  ge (valueOf (publishedAt a)) (valueOf (publishedAt b)) = true.
Proof.
  intros Hvalid Hdesc Ha. revert b. induction k as [|k IH]; intros b Hb.
  - rewrite Nat.add_0_r in Hb. simplify_eq.
    apply ge_valueOf_refl. by eapply Forall_lookup_1.
  - replace (i + S k)%nat with (S (i + k)) in Hb by lia.
    destruct (l !! (i + k)%nat) as [c|] eqn:Hc.
    + eapply ge_trans; [by apply IH |]. by eapply Hdesc.
    + apply lookup_ge_None in Hc. apply lookup_lt_Some in Hb. lia.
Qed.

(** X10: with valid dates, every article of the sorted list is at least as
    recent as every article after it, not only the next one; the first is
    the most recent of all. *)
Theorem sort_byDateDesc_all_pairs (l : list Article) (i j : nat) (a b : Article) :
  Forall validDate l → (i ≤ j)%nat →
  sort byDateDesc l !! i = Some a → sort byDateDesc l !! j = Some b →
  ge (valueOf (publishedAt a)) (valueOf (publishedAt b)) = true.
Proof.
  intros Hvalid Hij Ha Hb.
  replace j with (i + (j - i))%nat in Hb by lia.
  eapply (sortedByDateDesc_all_pairs (sort byDateDesc l)); [| |done..].
  - by rewrite sort_Permutation.
  - by apply sort_byDateDesc_sorted.
Qed.

Lemma sort_byDateDesc_all_pairs_witness :
  Forall validDate [older; datedAgain; dated] ∧ (0 ≤ 2)%nat ∧
  ge (valueOf (publishedAt datedAgain)) (valueOf (publishedAt older)) = true.
Proof.
  assert (Forall validDate [older; datedAgain; dated]) as Hvalid
    by (repeat constructor; done).
  split_and!; [exact Hvalid | lia |].
  exact (sort_byDateDesc_all_pairs _ 0 2 datedAgain older Hvalid
           ltac:(lia) eq_refl eq_refl).
Defined.

(** ** More on the search filter *)

Lemma append_assoc' (s1 s2 s3 : string) : (s1 +:+ s2) +:+ s3 = s1 +:+ (s2 +:+ s3).
Proof.
  induction s1 as [|c s1 IH]; [done |]. by rewrite !append_String, IH.
Qed.

Lemma includes_trans s q q' :
  includes s q' = true → includes q' q = true → includes s q = true.
Proof.
  rewrite !includes_spec.
  intros (pre & post & ->) (pre' & post' & ->).
  exists (pre +:+ pre'), (post' +:+ post). by rewrite !append_assoc'.
Qed.

Lemma filter_sublist_impl {A} (P Q : A → Prop)
    `{∀ x, Decision (P x)} `{∀ x, Decision (Q x)} (l : list A) :
  (∀ x, P x → Q x) → filter P l `sublist_of` filter Q l.
Proof.
  intros HPQ. induction l as [|x l IH]; [done |].
  rewrite !filter_cons. destruct (decide (P x)) as [HP|HP].
  - rewrite decide_True by auto. by apply sublist_skip.
  - case_decide; [by apply sublist_cons | done].
Qed.

(** X11: a query that contains the previous one (ignoring case) can only
    narrow the result: what it finds is a sub-list of what the previous
    query found. *)
Theorem filteredArticles_narrows (showBookmarks : bool)
    (bookmarks articles : list Article) (searchQuery searchQuery' : string) :
  includes (toLowerCase searchQuery') (toLowerCase searchQuery) = true →
  filteredArticles showBookmarks bookmarks articles searchQuery'
    `sublist_of` filteredArticles showBookmarks bookmarks articles searchQuery.
Proof.
  intros Hq. unfold filteredArticles.
  destruct showBookmarks; apply filter_sublist_impl; intros a Ha;
    by eapply includes_trans.
Qed.

Lemma filteredArticles_narrows_witness :
  includes (toLowerCase "Dated") (toLowerCase "DATE") = true ∧
  filteredArticles false [] [dated; undated; older] "Dated"
    `sublist_of` filteredArticles false [] [dated; undated; older] "DATE".
Proof.
  split; [reflexivity |].
  exact (filteredArticles_narrows false [] _ "DATE" "Dated" eq_refl).
Defined.

(** ** More on pagination *)

Lemma length_currentArticles (l : list Article) (p n : Z) :
  (0 < n)%Z → (1 ≤ p)%Z →
  Z.of_nat (length (currentArticles l p n))
  = Z.max 0 (Z.min n (Z.of_nat (length l) - (p - 1) * n)).
Proof.
  intros Hn Hp. rewrite currentArticles_take_drop, length_take, length_drop by done.
  nia.
Qed.

(** X12: a page is non-empty exactly when its number is at most
    [totalPages]; there are no pages exactly when the list is empty. *)
Theorem currentArticles_nonempty_iff (filtered : list Article)
    (itemsPerPage currentPage : Z) :
  (0 < itemsPerPage)%Z → (1 ≤ currentPage)%Z →
  (currentArticles filtered currentPage itemsPerPage ≠ [] ↔
   (currentPage ≤ totalPages filtered itemsPerPage)%Z) ∧
  (totalPages filtered itemsPerPage = 0%Z ↔ filtered = []).
Proof.
  intros Hn Hp.
  pose proof (totalPages_bounds filtered itemsPerPage Hn) as Hbounds.
  pose proof (length_currentArticles filtered currentPage itemsPerPage Hn Hp) as Hlen.
  split.
  - rewrite <-length_zero_iff_nil. split; intros ?; nia.
  - rewrite <-length_zero_iff_nil. split; intros ?; nia.
Qed.

Lemma currentArticles_nonempty_iff_witness :
  (0 < 2)%Z ∧ (1 ≤ 3)%Z ∧ totalPages [dated; undated; older] 2 = 2%Z ∧
  currentArticles [dated; undated; older] 3 2 = [].
Proof.
  pose proof (currentArticles_nonempty_iff [dated; undated; older] 2 3
                ltac:(lia) ltac:(lia)) as [Hiff _].
  split_and!; [lia | lia | reflexivity |].
  destruct (decide (currentArticles [dated; undated; older] 3 2 = []))
    as [Hnil|Hne]; [exact Hnil |].
  apply Hiff in Hne. vm_compute in Hne. by destruct Hne.
Defined.

(** X13: every page before the last holds exactly [itemsPerPage] articles,
    and the last one holds the rest, at least one. *)
Theorem currentArticles_length (filtered : list Article)
    (itemsPerPage currentPage : Z) :
  (0 < itemsPerPage)%Z → (1 ≤ currentPage ≤ totalPages filtered itemsPerPage)%Z →
  (currentPage < totalPages filtered itemsPerPage →
   Z.of_nat (length (currentArticles filtered currentPage itemsPerPage))
   = itemsPerPage)%Z ∧
  (currentPage = totalPages filtered itemsPerPage →
   Z.of_nat (length (currentArticles filtered currentPage itemsPerPage))
   = Z.of_nat (length filtered) - (currentPage - 1) * itemsPerPage ∧
   1 ≤ Z.of_nat (length (currentArticles filtered currentPage itemsPerPage)))%Z.
Proof.
  intros Hn [Hp Hlast].
  pose proof (totalPages_bounds filtered itemsPerPage Hn) as Hbounds.
  rewrite (length_currentArticles filtered currentPage itemsPerPage Hn Hp).
  split; intros ?; nia.
Qed.

Lemma currentArticles_length_witness :
  (0 < 2)%Z ∧ (1 ≤ 2 ≤ totalPages [dated; undated; older] 2)%Z ∧
  Z.of_nat (length (currentArticles [dated; undated; older] 2 2)) = 1%Z.
Proof.
  assert (1 ≤ 2 ≤ totalPages [dated; undated; older] 2)%Z as Hp
    by (vm_compute; split; discriminate).
  pose proof (currentArticles_length [dated; undated; older] 2 2
                ltac:(lia) Hp) as [_ Hlast].
  split; [lia |]. split; [exact Hp |].
  destruct (Hlast eq_refl) as [-> _]. reflexivity.
Defined.

(** X14: on a page that exists, the "Showing a to b of n" line counts
    exactly the articles on the page, and the article in position [i] of
    the page is the article number [a + i] of the filtered list. *)
Theorem showing_range (filtered : list Article) (itemsPerPage currentPage : Z) :
  (0 < itemsPerPage)%Z → (1 ≤ currentPage ≤ totalPages filtered itemsPerPage)%Z →
  (1 ≤ showingFrom currentPage itemsPerPage
     ≤ showingTo filtered currentPage itemsPerPage)%Z ∧
  (showingTo filtered currentPage itemsPerPage ≤ Z.of_nat (length filtered))%Z ∧
  (showingTo filtered currentPage itemsPerPage
   - showingFrom currentPage itemsPerPage + 1
   = Z.of_nat (length (currentArticles filtered currentPage itemsPerPage)))%Z ∧
  (∀ (i : nat) a,
     currentArticles filtered currentPage itemsPerPage !! i = Some a →
     filtered !! Z.to_nat (showingFrom currentPage itemsPerPage - 1 + Z.of_nat i)
     = Some a).
Proof.
  intros Hn [Hp Hlast].
  pose proof (totalPages_bounds filtered itemsPerPage Hn) as Hbounds.
  pose proof (length_currentArticles filtered currentPage itemsPerPage Hn Hp) as Hlen.
  unfold showingFrom, showingTo, startIndex in *.
  split_and!; [nia | nia | nia | nia |].
  intros i a. rewrite currentArticles_take_drop by done.
  intros [Hi Ha]%lookup_take_Some. rewrite lookup_drop in Hi.
  rewrite <-Hi. f_equal. nia.
Qed.

Lemma showing_range_witness :
  (0 < 2)%Z ∧ (1 ≤ 2 ≤ totalPages [dated; undated; older] 2)%Z ∧
  showingFrom 2 2 = 3%Z ∧ showingTo [dated; undated; older] 2 2 = 3%Z ∧
  Z.of_nat (length (currentArticles [dated; undated; older] 2 2)) = 1%Z.
Proof.
  assert (1 ≤ 2 ≤ totalPages [dated; undated; older] 2)%Z as Hp
    by (vm_compute; split; discriminate).
  pose proof (showing_range [dated; undated; older] 2 2 ltac:(lia) Hp)
    as (_ & _ & Hcount & _).
  split; [lia |]. split; [exact Hp |].
  split; [reflexivity |]. split; [reflexivity |].
  rewrite <-Hcount. reflexivity.
Defined.

(** ** Pagination controls *)

Lemma pageButtons_Some currentArticles totalPages currentPage buttons :
  pageButtons currentArticles totalPages currentPage = Some buttons ↔
  currentArticles ≠ [] ∧ (1 < totalPages)%Z ∧
  buttons = pageButton totalPages currentPage <$> seqZ 0 (Z.min 9 totalPages).
Proof.
  unfold pageButtons, pagerShown.
  destruct currentArticles as [|a l]; cbn.
  - split; [done | by intros [? _]].
  - rewrite (bool_decide_eq_true_2 (0 < S (length l))%nat) by lia.
    case_bool_decide; cbn.
    + split; [by intros [= <-] | by intros (_ & _ & ->)].
    + split; [done | by intros (_ & ? & _)].
Qed.


Lemma elem_of_pageButtons totalPages currentPage b :
  b ∈ pageButton totalPages currentPage <$> seqZ 0 (Z.min 9 totalPages) ↔
  ∃ i, (0 ≤ i < Z.min 9 totalPages)%Z ∧ b = pageButton totalPages currentPage i.
Proof.
  rewrite list_elem_of_fmap. split.
  - intros (i & -> & Hi%elem_of_seqZ). exists i. split; [lia | done].
  - intros (i & Hi & ->). exists i. split; [done |]. apply elem_of_seqZ. lia.
Qed.

Lemma pageButton_in_range totalPages currentPage i :
  (0 ≤ i < Z.min 9 totalPages)%Z →
  pageButton totalPages currentPage i = Some (pageNum totalPages currentPage i) ∧
  (1 ≤ pageNum totalPages currentPage i ≤ totalPages)%Z.
Proof.
  intros Hi. unfold pageButton.
  assert (1 ≤ pageNum totalPages currentPage i ≤ totalPages)%Z as Hrange.
  { unfold pageNum. repeat case_bool_decide; lia. }
  split; [|done].
  rewrite !bool_decide_eq_false_2 by lia. done.
Qed.



Lemma pageButtons_has_current totalPages currentPage :
  (1 ≤ currentPage ≤ totalPages)%Z →
  Some currentPage
    ∈ pageButton totalPages currentPage <$> seqZ 0 (Z.min 9 totalPages).
Proof.
  intros Hcp. apply elem_of_pageButtons.
  exists (if bool_decide (totalPages ≤ 9)%Z then currentPage - 1
          else if bool_decide (currentPage ≤ 5)%Z then currentPage - 1
          else if bool_decide (totalPages - 4 ≤ currentPage)%Z
               then currentPage - totalPages + 8
          else 4)%Z.
  assert (0 ≤ (if bool_decide (totalPages ≤ 9)%Z then currentPage - 1
          else if bool_decide (currentPage ≤ 5)%Z then currentPage - 1
          else if bool_decide (totalPages - 4 ≤ currentPage)%Z
               then currentPage - totalPages + 8
          else 4) < Z.min 9 totalPages)%Z as Hi
    by (repeat case_bool_decide; lia).
  split; [done |].
  destruct (pageButton_in_range totalPages currentPage _ Hi) as [-> _].
  f_equal. unfold pageNum. repeat case_bool_decide; lia.
Qed.



(** X16: whenever the component renders the desktop pager (with a positive
    page size and a current page of at least 1), the current page is one of
    the pages, the pager has a button for it, and clicking any button of
    the pager makes its page the current one. *)
Theorem pageButtons_current (filtered : list Article)
    (itemsPerPage currentPage : Z) (buttons : list (option Z)) :
  (0 < itemsPerPage)%Z → (1 ≤ currentPage)%Z →
  pageButtons (currentArticles filtered currentPage itemsPerPage)
              (totalPages filtered itemsPerPage) currentPage = Some buttons →
  (1 ≤ currentPage ≤ totalPages filtered itemsPerPage)%Z ∧
  Some currentPage ∈ buttons ∧
  (∀ page, Some page ∈ buttons →
           goToPage (totalPages filtered itemsPerPage) currentPage page = page).
Proof.
  intros Hn Hp (Hshown & _ & ->)%pageButtons_Some.
  assert (currentPage ≤ totalPages filtered itemsPerPage)%Z as Hlast.
  { pose proof (totalPages_bounds filtered itemsPerPage Hn) as Hbounds.
    pose proof (length_currentArticles filtered currentPage itemsPerPage Hn Hp)
      as Hlen.
    rewrite <-length_zero_iff_nil in Hshown. nia. }
  split_and!; [done | done | by apply pageButtons_has_current |].
  intros page (i & Hi & Heq)%elem_of_pageButtons.
  destruct (pageButton_in_range _ currentPage i Hi) as [Hb Hrange].
  rewrite Hb in Heq. injection Heq as ->.
  unfold goToPage. by rewrite !bool_decide_eq_true_2 by lia.
Qed.

Lemma pageButtons_current_witness :
  (0 < 6)%Z ∧ (1 ≤ 2)%Z ∧
  pageButtons (currentArticles sevenBookmarks 2 6) (totalPages sevenBookmarks 6) 2
    = Some [Some 1%Z; Some 2%Z] ∧
  Some 2%Z ∈ [Some 1%Z; Some 2%Z] ∧
  goToPage (totalPages sevenBookmarks 6) 2 1 = 1%Z.
Proof.
  destruct (pageButtons_current sevenBookmarks 6 2 [Some 1%Z; Some 2%Z]
              ltac:(lia) ltac:(lia) eq_refl) as (_ & Hcurrent & Hclick).
  split; [lia |]. split; [lia |]. split; [reflexivity |].
  split; [exact Hcurrent |]. apply Hclick. by left.
Defined.

Lemma goToPage_inside totalPages currentPage page :
  (1 ≤ page ≤ totalPages)%Z → goToPage totalPages currentPage page = page.
Proof. intros ?. unfold goToPage. by rewrite !bool_decide_eq_true_2 by lia. Qed.

Lemma goToPage_outside totalPages currentPage page :
  ¬ (1 ≤ page ≤ totalPages)%Z → goToPage totalPages currentPage page = currentPage.
Proof.
  intros ?. unfold goToPage. do 2 case_bool_decide; cbn; first [done | lia].
Qed.

(** X17: on a page that exists, Previous and Next are disabled exactly when
    clicking them would not change the page; they never leave the pages,
    and away from the two ends each one undoes the other. *)
Theorem previous_next_spec (totalPages currentPage : Z) :
  (1 ≤ currentPage ≤ totalPages)%Z →
  (previousDisabled currentPage = true ↔
   previousPage totalPages currentPage = currentPage) ∧
  (nextDisabled totalPages currentPage = true ↔
   nextPage totalPages currentPage = currentPage) ∧
  (1 ≤ previousPage totalPages currentPage ≤ totalPages)%Z ∧
  (1 ≤ nextPage totalPages currentPage ≤ totalPages)%Z ∧
  (1 < currentPage →
   nextPage totalPages (previousPage totalPages currentPage) = currentPage)%Z ∧
  (currentPage < totalPages →
   previousPage totalPages (nextPage totalPages currentPage) = currentPage)%Z.
Proof.
  intros Hcp. unfold previousDisabled, nextDisabled, previousPage, nextPage.
  rewrite !bool_decide_eq_true.
  assert (currentPage = 1 ∨ 1 < currentPage)%Z as [Hfirst|Hfirst] by lia;
  assert (currentPage = totalPages ∨ currentPage < totalPages)%Z
    as [Hlast|Hlast] by lia.
  all: try rewrite (goToPage_outside totalPages currentPage (currentPage - 1))
    by lia.
  all: try rewrite (goToPage_inside totalPages currentPage (currentPage - 1))
    by lia.
  all: try rewrite (goToPage_outside totalPages currentPage (currentPage + 1))
    by lia.
  all: try rewrite (goToPage_inside totalPages currentPage (currentPage + 1))
    by lia.
  all: split_and!; try lia; intros ?; try lia.
  all: rewrite goToPage_inside by lia; lia.
Qed.

Lemma previous_next_spec_witness :
  (1 ≤ 2 ≤ 3)%Z ∧ previousPage 3 2 = 1%Z ∧ nextPage 3 (previousPage 3 2) = 2%Z.
Proof.
  assert (1 ≤ 2 ≤ 3)%Z as Hcp by lia.
  pose proof (previous_next_spec 3 2 Hcp) as (_ & _ & _ & _ & Hback & _).
  split; [exact Hcp |]. split; [reflexivity | apply Hback; lia].
Defined.

(** ** More on bookmarks *)

Lemma isBookmarked_iff bookmarks articleId :
  isBookmarked bookmarks articleId = true ↔ articleId ∈ id <$> bookmarks.
Proof. unfold isBookmarked. by rewrite bool_decide_eq_true, some_same_id. Qed.

Lemma addBookmark_ids now article prev i :
  i ∈ id <$> addBookmark now article prev ↔ i = id article ∨ i ∈ id <$> prev.
Proof.
  destruct (decide (id article ∈ id <$> prev)) as [Hin|Hnew].
  - rewrite addBookmark_present by done. split; [by right |].
    by intros [-> | ?].
  - rewrite addBookmark_new, fmap_app, elem_of_app by done. cbn.
    rewrite list_elem_of_singleton. tauto.
Qed.

Lemma removeBookmark_elem_of_ids articleId prev i :
  i ∈ id <$> removeBookmark articleId prev ↔ i ≠ articleId ∧ i ∈ id <$> prev.
Proof. by rewrite removeBookmark_ids, list_elem_of_filter. Qed.

(** X18: an article is bookmarked after [addBookmark] exactly if it is the
    added one or was bookmarked before; after [removeBookmark] exactly if
    it is another one that was bookmarked before; after
    [clearAllBookmarks] never. *)
Theorem isBookmarked_after (now : string) (article : Article)
    (articleId i : string) (prev : list Article) :
  (isBookmarked (addBookmark now article prev) i = true ↔
   i = id article ∨ isBookmarked prev i = true) ∧
  (isBookmarked (removeBookmark articleId prev) i = true ↔
   i ≠ articleId ∧ isBookmarked prev i = true) ∧
  isBookmarked (clearAllBookmarks prev) i = false.
Proof.
  rewrite !isBookmarked_iff. split_and!.
  - apply addBookmark_ids.
  - apply removeBookmark_elem_of_ids.
  - apply bool_decide_eq_false_2. by intros ?%Exists_nil.
Qed.

Lemma addBookmark_prefix now article prev :
  prev `prefix_of` addBookmark now article prev.
Proof.
  destruct (decide (id article ∈ id <$> prev)) as [Hin|Hnew].
  - by rewrite addBookmark_present.
  - rewrite addBookmark_new by done. by apply prefix_app_r.
Qed.

(** X19: adding never touches the bookmarks already there, adding the same
    article again, even at a later time, changes nothing (the first
    bookmark date is kept), and removing an id twice is the same as
    removing it once. *)
Theorem bookmarks_idempotent (now now' : string) (article : Article)
    (articleId : string) (prev : list Article) :
  prev `prefix_of` addBookmark now article prev ∧
  addBookmark now' article (addBookmark now article prev)
    = addBookmark now article prev ∧
  removeBookmark articleId (removeBookmark articleId prev)
    = removeBookmark articleId prev.
Proof.
  split_and!.
  - apply addBookmark_prefix.
  - apply addBookmark_present, addBookmark_ids. by left.
  - apply removeBookmark_absent.
    rewrite removeBookmark_elem_of_ids. by intros [? _].
Qed.

Lemma removeBookmark_other articleId j prev :
  articleId ≠ j →
  filter (λ b, id b = j) (removeBookmark articleId prev)
  = filter (λ b, id b = j) prev.
Proof.
  intros Hne. unfold removeBookmark. rewrite list_filter_filter.
  apply list_filter_iff. intros b. split; [by intros [? _] |].
  intros Hj. split; [done | congruence].
Qed.

Lemma addBookmark_other now article j prev :
  id article ≠ j →
  filter (λ b, id b = j) (addBookmark now article prev)
  = filter (λ b, id b = j) prev.
Proof.
  intros Hne. destruct (decide (id article ∈ id <$> prev)) as [Hin|Hnew].
  - by rewrite addBookmark_present.
  - rewrite addBookmark_new, filter_app by done.
    rewrite (filter_cons_False _ (withBookmarkedAt article now)) by done.
    by rewrite filter_nil, app_nil_r.
Qed.

(** X20: a click on the bookmark button of a card flips whether that
    article is bookmarked and leaves the bookmarks of every other id as
    they were. *)
Theorem handleBookmarkClick_flips (now : string) (article : Article)
    (bookmarks : list Article) :
  isBookmarked (handleBookmarkClick now article bookmarks) (id article)
    = negb (isBookmarked bookmarks (id article)) ∧
  (∀ j, j ≠ id article →
        filter (λ b, id b = j) (handleBookmarkClick now article bookmarks)
        = filter (λ b, id b = j) bookmarks).
Proof.
  unfold handleBookmarkClick.
  destruct (isBookmarked bookmarks (id article)) eqn:Hbm; cbn; split.
  - apply not_true_is_false. rewrite isBookmarked_iff, removeBookmark_elem_of_ids.
    by intros [? _].
  - intros j Hj. by apply removeBookmark_other.
  - apply isBookmarked_iff, addBookmark_ids. by left.
  - intros j Hj. by apply addBookmark_other.
Qed.

(** ** The component as a whole *)

Lemma step_articles_NoDup st ev :
  NoDup (id <$> st_articles st) → NoDup (id <$> st_articles (step st ev)).
Proof.
  intros Hst. destruct ev; cbn; try done.
  - destruct (fetchAllNews r0 r1 r2) as [merged|] eqn:Hmerged; [|done].
    by eapply fetchAllNews_ids_NoDup_aux.
  - unfold resetPageIfChanged. by case_bool_decide.
  - unfold resetPageIfChanged. by case_bool_decide.
  - unfold resetPageIfChanged. by case_bool_decide.
Qed.

Lemma run_articles_NoDup st evs :
  NoDup (id <$> st_articles st) → NoDup (id <$> st_articles (run st evs)).
Proof.
  revert st. induction evs as [|ev evs IH]; intros st Hst; [done |].
  apply IH. by apply step_articles_NoDup.
Qed.

Lemma slice_sublist {A} (l : list A) (start end_ : Z) :
  slice l start end_ `sublist_of` l.
Proof.
  unfold slice. etransitivity; [apply sublist_take | apply sublist_drop].
Qed.

Lemma filteredArticles_sublist showBookmarks bookmarks articles searchQuery :
  filteredArticles showBookmarks bookmarks articles searchQuery
    `sublist_of` (if showBookmarks then bookmarks else articles).
Proof. unfold filteredArticles. destruct showBookmarks; apply sublist_filter. Qed.

(** X21: if the bookmarks restored from the session have pairwise distinct
    ids, then in every state the component reaches the cards on screen
    have pairwise distinct ids (the React keys of the list). *)
Theorem reachable_cards_distinct (savedBookmarks : list Article)
    (savedDarkMode : bool) (evs : list Event) :
  NoDup (id <$> savedBookmarks) →
  NoDup (id <$> st_currentArticles (run (initialState savedBookmarks savedDarkMode) evs)).
Proof.
  intros Hsaved.
  set (st := run (initialState savedBookmarks savedDarkMode) evs).
  assert (NoDup (id <$> st_articles st)) as Harticles
    by (apply run_articles_NoDup, NoDup_nil_2).
  assert (NoDup (id <$> st_bookmarks st)) as Hbookmarks
    by by apply run_bookmarks_NoDup.
  unfold st_currentArticles, currentArticles, st_filteredArticles.
  eapply sublist_NoDup; [|apply fmap_sublist, slice_sublist].
  eapply sublist_NoDup; [|apply fmap_sublist, filteredArticles_sublist].
  by destruct (st_showBookmarks st).
Qed.

Lemma reachable_cards_distinct_witness :
  NoDup (id <$> [withBookmarkedAt dated "2024-01-01T00:00:00.000Z"]) ∧
  NoDup (id <$> st_currentArticles
           (run (initialState [withBookmarkedAt dated "2024-01-01T00:00:00.000Z"] false)
                [ArticlesFetched newsApiOk gnewsOk rejected;
                 AddBookmark "2024-01-02T00:00:00.000Z" older;
                 SetShowBookmarks true])).
Proof.
  assert (NoDup (id <$> [withBookmarkedAt dated "2024-01-01T00:00:00.000Z"]))
    as Hsaved by apply NoDup_singleton.
  split; [exact Hsaved |].
  exact (reachable_cards_distinct _ false _ Hsaved).
Defined.

Lemma updateItemsPerPage_option width :
  updateItemsPerPage width ∈ itemsPerPageOptions.
Proof.
  unfold updateItemsPerPage, itemsPerPageOptions.
  repeat case_bool_decide; set_solver.
Qed.

Lemma step_itemsPerPage st ev :
  selectsAnOption ev →
  st_itemsPerPage st ∈ itemsPerPageOptions →
  st_itemsPerPage (step st ev) ∈ itemsPerPageOptions.
Proof.
  intros Hev Hst. destruct ev; cbn; try done.
  - by destruct (fetchAllNews r0 r1 r2).
  - unfold resetPageIfChanged. by case_bool_decide.
  - unfold resetPageIfChanged. by case_bool_decide.
  - unfold resetPageIfChanged. by case_bool_decide.
  - apply updateItemsPerPage_option.
Qed.

(** X22: as long as the selector only offers its five options, the page
    size is always one of them (a resize picks 6, 8 or 12), so it is
    positive in every state the component reaches. *)
Theorem reachable_itemsPerPage (savedBookmarks : list Article)
    (savedDarkMode : bool) (evs : list Event) :
  Forall selectsAnOption evs →
  st_itemsPerPage (run (initialState savedBookmarks savedDarkMode) evs)
    ∈ itemsPerPageOptions ∧
  (0 < st_itemsPerPage (run (initialState savedBookmarks savedDarkMode) evs))%Z.
Proof.
  intros Hevs.
  assert (st_itemsPerPage (run (initialState savedBookmarks savedDarkMode) evs)
            ∈ itemsPerPageOptions) as Hin.
  { assert (st_itemsPerPage (initialState savedBookmarks savedDarkMode)
              ∈ itemsPerPageOptions) as Hinit
      by (unfold itemsPerPageOptions; cbn; set_solver).
    revert Hinit. generalize (initialState savedBookmarks savedDarkMode).
    induction Hevs as [|ev evs Hev Hevs IH]; intros st Hst; [done |].
    apply IH. by apply step_itemsPerPage. }
  split; [done |]. unfold itemsPerPageOptions in Hin.
  set_unfold. lia.
Qed.

Lemma reachable_itemsPerPage_witness :
  Forall selectsAnOption [Resize 500; SelectItemsPerPage 24; GoToPage 2] ∧
  st_itemsPerPage (run (initialState [] false)
                     [Resize 500; SelectItemsPerPage 24; GoToPage 2]) = 24%Z.
Proof.
  assert (Forall selectsAnOption [Resize 500; SelectItemsPerPage 24; GoToPage 2])
    as Hevs.
  { repeat constructor. }
  pose proof (reachable_itemsPerPage [] false _ Hevs) as [_ Hpos].
  split; [exact Hevs | reflexivity].
Defined.

Lemma first_page_shows_results st :
  (0 < st_itemsPerPage st)%Z → st_currentPage st = 1%Z →
  st_currentArticles st
    = take (Z.to_nat (st_itemsPerPage st)) (st_filteredArticles st) ∧
  (st_currentArticles st = [] ↔ st_filteredArticles st = []).
Proof.
  intros Hn Hp. unfold st_currentArticles.
  rewrite Hp, currentArticles_take_drop by lia.
  change (Z.to_nat ((1 - 1) * st_itemsPerPage st)) with 0%nat. rewrite drop_0.
  split; [done |].
  destruct (Z.to_nat (st_itemsPerPage st)) as [|k] eqn:Hk; [lia |].
  by destruct (st_filteredArticles st).
Qed.

(** X23: typing a different search query, or switching between all news
    and bookmarks, brings the component back to page 1, which shows the
    first [itemsPerPage] results and is empty only if nothing matches. *)
Theorem search_or_switch_shows_first_page (st : AppState) (ev : Event) :
  (0 < st_itemsPerPage st)%Z →
  (∃ value, ev = SetSearchQuery value ∧ value ≠ st_searchQuery st) ∨
  (∃ value, ev = SetShowBookmarks value ∧ value ≠ st_showBookmarks st) →
  st_currentPage (step st ev) = 1%Z ∧
  st_currentArticles (step st ev)
    = take (Z.to_nat (st_itemsPerPage st)) (st_filteredArticles (step st ev)) ∧
  (st_currentArticles (step st ev) = [] ↔ st_filteredArticles (step st ev) = []).
Proof.
  intros Hn Hev.
  assert (st_currentPage (step st ev) = 1%Z ∧
          st_itemsPerPage (step st ev) = st_itemsPerPage st) as [Hp Hn'].
  { destruct Hev as [(value & -> & Hne)|(value & -> & Hne)]; cbn;
      unfold resetPageIfChanged; rewrite bool_decide_eq_false_2; cbn; try done.
    - by intros (_ & ? & _).
    - by intros (? & _). }
  split; [done |]. rewrite <-Hn'. apply first_page_shows_results; [lia | done].
Qed.

Lemma search_or_switch_shows_first_page_witness :
  let st := run (initialState [] false)
              [ArticlesFetched newsApiOk gnewsOk rejected; Resize 500] in
  (0 < st_itemsPerPage st)%Z ∧ "story" ≠ st_searchQuery st ∧
  st_currentPage (step st (SetSearchQuery "story")) = 1%Z ∧
  st_currentArticles (step st (SetSearchQuery "story")) = [gnewsArticle].
Proof.
  set (st := run (initialState [] false)
               [ArticlesFetched newsApiOk gnewsOk rejected; Resize 500]).
  assert (0 < st_itemsPerPage st)%Z as Hn by reflexivity.
  assert ("story" ≠ st_searchQuery st) as Hq by discriminate.
  pose proof (search_or_switch_shows_first_page st (SetSearchQuery "story") Hn
                (or_introl (ex_intro _ "story" (conj eq_refl Hq))))
    as (Hp & _ & _).
  split; [exact Hn |]. split; [exact Hq |]. split; [exact Hp | reflexivity].
Defined.

Lemma totalPages_exact (l : list Article) (n k : Z) :
  (0 < n)%Z → Z.of_nat (length l) = (k * n)%Z → totalPages l n = k.
Proof.
  intros Hn Hlen. pose proof (totalPages_bounds l n Hn). nia.
Qed.

(** X24: removing a bookmark does not move the current page.  When the
    bookmark list is shown unfiltered and its last page holds a single
    bookmark, removing that bookmark leaves the component on a page that no
    longer exists: nothing is shown although bookmarks remain. *)
Theorem removeBookmark_strands_last_page (st : AppState) (b : Article) :
  (0 < st_itemsPerPage st)%Z → (2 ≤ st_currentPage st)%Z →
  st_showBookmarks st = true → st_searchQuery st = "" →
  NoDup (id <$> st_bookmarks st) →
  last (st_bookmarks st) = Some b →
  Z.of_nat (length (st_bookmarks st))
    = ((st_currentPage st - 1) * st_itemsPerPage st + 1)%Z →
  st_currentArticles st = [b] ∧
  st_currentPage (step st (RemoveBookmark (id b))) = st_currentPage st ∧
  st_totalPages (step st (RemoveBookmark (id b))) = (st_currentPage st - 1)%Z ∧
  st_filteredArticles (step st (RemoveBookmark (id b))) ≠ [] ∧
  st_currentArticles (step st (RemoveBookmark (id b))) = [].
Proof.
  intros Hn Hp Hshow Hquery Hnd Hlast Hlen.
  apply last_Some in Hlast as [l Hl].
  assert (id b ∉ id <$> l) as Hfresh.
  { rewrite Hl, fmap_app in Hnd. apply NoDup_app in Hnd as (_ & Hnd & _).
    intros Hin. apply (Hnd _ Hin). by left. }
  assert (removeBookmark (id b) (st_bookmarks st) = l) as Hremoved.
  { rewrite Hl, removeBookmark_app, removeBookmark_absent by done.
    unfold removeBookmark. rewrite filter_cons_False, filter_nil by (by intros []).
    apply app_nil_r. }
  assert (∀ k : list Article,
            filteredArticles true k (st_articles st) "" = k) as Hall.
  { intros k. apply filter_all, matchesQuery_empty. }
  assert (Z.of_nat (length l) = (st_currentPage st - 1) * st_itemsPerPage st)%Z
    as Hlen'.
  { rewrite Hl, length_app in Hlen. cbn in Hlen. lia. }
  unfold st_currentArticles, st_totalPages, st_filteredArticles. cbn.
  rewrite Hshow, Hquery, Hremoved, !Hall. split_and!.
  - rewrite currentArticles_take_drop by lia.
    rewrite Hl, drop_app_length' by lia.
    destruct (Z.to_nat (st_itemsPerPage st)) as [|k] eqn:Hk; [lia |].
    cbn. by rewrite take_nil.
  - done.
  - by apply totalPages_exact.
  - intros ->. cbn in Hlen'. nia.
  - rewrite currentArticles_take_drop by lia.
    rewrite drop_ge by lia. apply take_nil.
Qed.

Lemma removeBookmark_strands_last_page_witness :
  let st := run (initialState sevenBookmarks false)
              [SetShowBookmarks true; Resize 500; GoToPage 2] in
  ((0 < st_itemsPerPage st)%Z ∧ (2 ≤ st_currentPage st)%Z ∧
   st_showBookmarks st = true ∧ st_searchQuery st = "" ∧
   NoDup (id <$> st_bookmarks st) ∧
   last (st_bookmarks st) = Some (numbered "7") ∧
   Z.of_nat (length (st_bookmarks st))
     = ((st_currentPage st - 1) * st_itemsPerPage st + 1)%Z) ∧
  st_totalPages (step st (RemoveBookmark "7")) = 1%Z ∧
  st_currentArticles (step st (RemoveBookmark "7")) = [].
Proof.
  set (st := run (initialState sevenBookmarks false)
               [SetShowBookmarks true; Resize 500; GoToPage 2]).
  assert (NoDup (id <$> st_bookmarks st)) as Hnd.
  { apply (bool_decide_unpack _). vm_compute. exact I. }
  pose proof (removeBookmark_strands_last_page st (numbered "7")
                eq_refl ltac:(vm_compute; discriminate) eq_refl eq_refl Hnd
                eq_refl eq_refl) as (_ & _ & Htotal & _ & Hempty).
  split; [|split; [exact Htotal | exact Hempty]].
  split_and!; first [reflexivity | exact Hnd | vm_compute; discriminate].
Defined.

(** ** Theme persistence *)

Lemma themeEffect_valid theme classList localStorage :
  theme = "light" ∨ theme = "dark" →
  themeEffect theme classList localStorage
  = Some ((classList ∖ {[toggleTheme theme]}) ∪ {[theme]},
          <["theme" := theme]> localStorage).
Proof. by intros [-> | ->]. Qed.

(** X25: for the themes light and dark the effect of [useTheme] succeeds;
    afterwards the root element carries the class of the theme and not the
    class of the other one, every other class is as before, and the theme
    read back from [localStorage] is the one that was applied. *)
Theorem themeEffect_light_dark (theme : string) (classList : gset string)
    (localStorage : gmap string string) :
  theme = "light" ∨ theme = "dark" →
  ∃ classList' localStorage',
    themeEffect theme classList localStorage = Some (classList', localStorage') ∧
    theme ∈ classList' ∧ (toggleTheme theme ∉ classList') ∧
    (∀ c, c ≠ "light" → c ≠ "dark" → c ∈ classList' ↔ c ∈ classList) ∧
    initialTheme localStorage' = theme ∧
    (∀ key, key ≠ "theme" → localStorage' !! key = localStorage !! key).
Proof.
  intros Htheme. eexists _, _. split; [by apply themeEffect_valid |].
  split_and!.
  - set_solver.
  - destruct Htheme as [-> | ->]; set_solver.
  - intros c ??. destruct Htheme as [-> | ->]; set_solver.
  - unfold initialTheme. rewrite lookup_insert_eq.
    by destruct Htheme as [-> | ->].
  - intros key ?. by rewrite lookup_insert_ne.
Qed.

Lemma themeEffect_light_dark_witness :
  ("dark" = "light" ∨ "dark" = "dark") ∧
  ∃ classList' localStorage',
    themeEffect "dark" {["light"; "app"]} ∅ = Some (classList', localStorage') ∧
    "dark" ∈ classList' ∧ "light" ∉ classList'.
Proof.
  assert ("dark" = "light" ∨ "dark" = "dark") as Htheme by (right; reflexivity).
  split; [exact Htheme |].
  destruct (themeEffect_light_dark "dark" {["light"; "app"]} ∅ Htheme)
    as (cl & ls & Heff & Hin & Hout & _).
  exists cl, ls. split; [exact Heff |]. split; [exact Hin | exact Hout].
Defined.

(** X26: the theme the hook starts with is never the empty string, and is
    light when nothing (or an empty string) is stored; whatever the theme
    was, after one toggle it is light or dark. *)
Theorem initialTheme_spec (localStorage : gmap string string) (prevTheme : string) :
  initialTheme localStorage ≠ "" ∧
  (localStorage !! "theme" = None ∨ localStorage !! "theme" = Some "" →
   initialTheme localStorage = "light") ∧
  (∀ theme, theme ≠ "" → localStorage !! "theme" = Some theme →
            initialTheme localStorage = theme) ∧
  (toggleTheme prevTheme = "light" ∨ toggleTheme prevTheme = "dark").
Proof.
  unfold initialTheme, toggleTheme. split_and!.
  - destruct (localStorage !! "theme") as [theme|]; [|done]. by case_decide.
  - by intros [-> | ->].
  - intros theme Hne ->. by rewrite decide_False.
  - case_decide; auto.
Qed.

(** X27: the dark-mode effect of [App] stores a flag that [loadDarkMode]
    reads back unchanged, puts the class dark on the root element exactly
    when dark mode is on, and touches no other class and no other key. *)
Theorem darkModeEffect_spec (darkMode : bool) (classList : gset string)
    (localStorage : gmap string string) :
  loadDarkMode (darkModeEffect darkMode classList localStorage).2 = darkMode ∧
  ("dark" ∈ (darkModeEffect darkMode classList localStorage).1 ↔ darkMode = true) ∧
  (∀ c, c ≠ "dark" →
        c ∈ (darkModeEffect darkMode classList localStorage).1 ↔ c ∈ classList) ∧
  (∀ key, key ≠ "darkMode" →
          (darkModeEffect darkMode classList localStorage).2 !! key
          = localStorage !! key).
Proof.
  unfold loadDarkMode, darkModeEffect. cbn. split_and!.
  - rewrite lookup_insert_eq. by destruct darkMode.
  - destruct darkMode; set_solver.
  - intros c ?. destruct darkMode; set_solver.
  - intros key ?. by rewrite lookup_insert_ne.
Qed.
